(** * SubMaker: subtitles from WordBoundary / SentenceBoundary events

    A shallow embedding of [src/edge_tts/submaker.py] and the properties of
    its line grouping.  The class [SubMaker] is a record, its methods are
    functions that take the object and give the object back; the two
    [raise ValueError] sites of [feed] and the [OverflowError] that
    [timedelta] raises inside it are the constructors of [exception]. *)

From Stdlib Require Import ZArith List String Ascii Bool Arith Lia QArith Sorted.
From Stdlib Require Import Floats.SpecFloat.
Import ListNotations.

Local Close Scope Q_scope.
Local Open Scope nat_scope.
Local Open Scope string_scope.
Local Open Scope list_scope.

(** ** Python [str] operations used by the module

    Strings are ASCII text: one [ascii] per code point, [String.length] is
    [len], [String.eqb] is [==] and [String.concat sep l] is [sep.join(l)]. *)

Module PyStr.

(** [bool(s)]: a string is true when it is not empty. *)
Definition truthy (s : string) : bool :=
  match s with
  | EmptyString => false
  | String _ _ => true
  end.

Definition lower_char (c : ascii) : ascii :=
  let n := nat_of_ascii c in
  if (65 <=? n)%nat && (n <=? 90)%nat then ascii_of_nat (n + 32) else c.

(** [s.lower()] on ASCII text: the letters A to Z are lowered and the
    length is kept.  On other code points Python's [lower] lowers more
    and may lengthen the text. *)
Fixpoint lower (s : string) : string :=
  match s with
  | EmptyString => EmptyString
  | String c s' => String (lower_char c) (lower s')
  end.

(** [c.isspace()] on ASCII: tab, line feed, vertical tab, form feed,
    carriage return, the four separators 0x1c..0x1f and the space. *)
Definition isspace (c : ascii) : bool :=
  let n := nat_of_ascii c in
  ((9 <=? n)%nat && (n <=? 13)%nat) || ((28 <=? n)%nat && (n <=? 32)%nat).

Fixpoint lstrip (s : string) : string :=
  match s with
  | EmptyString => EmptyString
  | String c s' => if isspace c then lstrip s' else s
  end.

Fixpoint rstrip (s : string) : string :=
  match s with
  | EmptyString => EmptyString
  | String c s' =>
      match rstrip s' with
      | EmptyString => if isspace c then EmptyString else String c EmptyString
      | r => String c r
      end
  end.

(** [s.strip()] *)
Definition strip (s : string) : string := rstrip (lstrip s).

(** [s.split(sep)] for a one-character separator; the result is never
    empty ([''.split(sep) == ['']]). *)
Fixpoint split (sep : ascii) (s : string) : list string :=
  match s with
  | EmptyString => [EmptyString]
  | String c s' =>
      if Ascii.eqb c sep then EmptyString :: split sep s'
      else match split sep s' with
           | [] => [String c EmptyString]
           | piece :: pieces => String c piece :: pieces
           end
  end.

(** [sub in s] *)
Fixpoint contains (sub s : string) : bool :=
  String.prefix sub s ||
  match s with
  | EmptyString => false
  | String _ s' => contains sub s'
  end.

(** [sep.join(l)] *)
Definition join (sep : string) (l : list string) : string := String.concat sep l.

Definition LF : string := String (ascii_of_nat 10) EmptyString.

End PyStr.

(** ** [datetime.timedelta]

    A [timedelta] is a whole number of microseconds (its days, seconds and
    microseconds fields, normalised, count exactly that). *)

Definition timedelta : Type := Z.

(** The quotient [num / den] rounded to the nearest integer, ties to the
    even one. *)
Definition round_half_even (num den : Z) : Z :=
  let q := (num / den)%Z in
  let r := (num mod den)%Z in
  if (2 * r <? den)%Z then q
  else if (den <? 2 * r)%Z then (q + 1)%Z
  else if Z.even q then q else (q + 1)%Z.

(** [n / 10] for an integer [n >= 0]: Python's true division of integers
    gives the binary64 number nearest to the quotient, ties to the even
    mantissa.  The mantissa has 53 bits, so with [2^52 <= n / (10 * u)
    < 2^53] the float is a multiple of the unit [u]; as [n / 10 >= 1/10]
    for [n >= 1], the unit is at least [2^-56], and floats are kept here as
    integers, scaled by [2^56]: [float_scale * x] stands for [x]. *)
Definition float_scale : Z := 2 ^ 56.

(** The exponent [s] of the unit [2^s / 2^56] of the float [n / 10]: the
    one that leaves 53 bits before the point.  As [10] lies between [2^3]
    and [2^4], it is [log2 n + 1] or one less. *)
Definition ulp_exponent (n : Z) : Z :=
  let s0 := (Z.log2 n + 1)%Z in
  if (2 ^ 52 <=? (float_scale * n) / (10 * 2 ^ s0))%Z then s0
  else (s0 - 1)%Z.

(** The float [n / 10], scaled: the quotient rounded to a multiple of the
    unit.  The exponent is not bounded above; a quotient beyond the
    binary64 range, where Python raises [OverflowError], is far beyond
    what [timedelta] holds, where the same exception is raised. *)
Definition true_div10 (n : Z) : Z :=
  let u := (2 ^ ulp_exponent n)%Z in
  (round_half_even (float_scale * n) (10 * u) * u)%Z.

(** [timedelta(microseconds=x)] for a float [x >= 0]: the constructor
    rounds a float number of microseconds to the nearest integer, ties to
    even. *)
Definition microseconds_div10_abs (n : Z) : Z :=
  round_half_even (true_div10 n) float_scale.

(** The microseconds of [timedelta(microseconds=ticks / 10)]; division
    and rounding are symmetric about zero. *)
Definition timedelta_microseconds_div10 (ticks : Z) : timedelta :=
  if (ticks <? 0)%Z then (- microseconds_div10_abs (- ticks))%Z
  else microseconds_div10_abs ticks.

(** A [timedelta] holds at most 999999999 days either way; the
    constructor raises [OverflowError] beyond. *)
Definition timedelta_fits (microseconds : Z) : bool :=
  let days := (microseconds / 86400000000)%Z in
  ((-999999999 <=? days) && (days <=? 999999999))%Z.

(** The same quotient by the IEEE 754 definitions of the standard library,
    to check [timedelta_microseconds_div10] against: the correctly rounded
    binary64 quotient of two integers, and a float rounded to an integer,
    ties to even. *)
Definition binary64_div (a b : Z) : spec_float :=
  match a, b with
  | Z0, _ => S754_zero false
  | _, Z0 => S754_nan
  | _, _ =>
      let '(q, e, l) := SFdiv_core_binary 53 1024 (Z.abs a) 0 (Z.abs b) 0 in
      binary_round_aux 53 1024 (xorb (a <? 0)%Z (b <? 0)%Z) q e l
  end.

Definition round_float (x : spec_float) : option Z :=
  match x with
  | S754_zero _ => Some 0%Z
  | S754_finite s m e =>
      let v := if (0 <=? e)%Z then (Z.pos m * 2 ^ e)%Z
               else round_half_even (Z.pos m) (2 ^ (- e)) in
      Some (if s then (- v)%Z else v)
  | _ => None
  end.

(** [td.total_seconds()] as a rational. *)
Definition total_seconds (td : timedelta) : Q := Qmake td 1000000.

(** ** Records of the collaborating modules *)

(** Modelled from the spec: the [Subtitle] record of [srt_composer], which
    is not among the sources; the spec's Cue
    [{ index, start, end, content }] with the constructor's keyword names
    ([end] is written [end_]). *)
Record Subtitle : Type := mkSubtitle {
  index : nat;
  start : timedelta;
  end_ : timedelta;
  content : string
}.

(** Modelled from the spec: the [TTSChunk] dictionary of [typing], which is
    not among the sources; the input event shape of the spec, a record with
    the keys [type], [text], [offset] and [duration] (integers, 100 ns
    ticks). *)
Record TTSChunk : Type := mkTTSChunk {
  msg_type : string;
  msg_text : string;
  msg_offset : Z;
  msg_duration : Z
}.

(** ** The object *)

(** [self.cues] names a list object.  [__init__] creates one for it;
    [get_srt] may rebind it to the very list [self._all_words_buffer]
    names, after which an append through either name is seen through
    both. *)
Inductive cues_binding : Type :=
| OwnList (l : list Subtitle)
| BufferList.

Record SubMaker : Type := mkSubMaker {
  cues : cues_binding;
  type : option string;
  original_text : option string;
  _line_groups : option (list string);
  _current_line_index : nat;
  _current_line_words : list Subtitle;
  _all_words_buffer : list Subtitle
}.

(** The list [self.cues] denotes. *)
Definition cues_list (self : SubMaker) : list Subtitle :=
  match cues self with
  | OwnList l => l
  | BufferList => _all_words_buffer self
  end.

Definition set_cues (self : SubMaker) (c : cues_binding) : SubMaker :=
  mkSubMaker c (type self) (original_text self) (_line_groups self)
    (_current_line_index self) (_current_line_words self)
    (_all_words_buffer self).

Definition set_type (self : SubMaker) (t : option string) : SubMaker :=
  mkSubMaker (cues self) t (original_text self) (_line_groups self)
    (_current_line_index self) (_current_line_words self)
    (_all_words_buffer self).

Definition set_buffer (self : SubMaker) (b : list Subtitle) : SubMaker :=
  mkSubMaker (cues self) (type self) (original_text self) (_line_groups self)
    (_current_line_index self) (_current_line_words self) b.

(** [self._all_words_buffer.append(x)] *)
Definition buffer_append (self : SubMaker) (x : Subtitle) : SubMaker :=
  set_buffer self (_all_words_buffer self ++ [x]).

(** [self.cues.append(x)]: the list that [self.cues] names grows, which is
    the buffer when the two names are bound to one list. *)
Definition cues_append (self : SubMaker) (x : Subtitle) : SubMaker :=
  match cues self with
  | OwnList l => set_cues self (OwnList (l ++ [x]))
  | BufferList => buffer_append self x
  end.

(** [[line.strip() for line in original_text.split('\n') if line.strip()]] *)
Definition split_lines (text : string) : list string :=
  map PyStr.strip
    (filter (fun line => PyStr.truthy (PyStr.strip line))
       (PyStr.split (ascii_of_nat 10) text)).

Definition __init__ (original_text : option string) : SubMaker :=
  mkSubMaker (OwnList []) None original_text
    (match original_text with
     | Some text => if PyStr.truthy text then Some (split_lines text) else None
     | None => None
     end)
    0 [] [].

(** ** [feed] *)

(** What [feed] can raise: [ValueError] at its two [raise] sites, and the
    [OverflowError] of [timedelta]. *)
Inductive exception : Type :=
| InvalidEventKind
| MixedEventKind (expected got : string)
| OverflowError.

(** How a call ends: it returns, or an exception leaves it. *)
Inductive outcome : Type :=
| Returned
| Raised (e : exception).

Definition is_boundary_type (t : string) : bool :=
  (t =? "WordBoundary") || (t =? "SentenceBoundary").

(** The [Subtitle] that [feed] builds from [msg]. *)
Definition subtitle_of (self : SubMaker) (msg : TTSChunk) : Subtitle :=
  mkSubtitle
    (List.length (_all_words_buffer self) + 1)
    (timedelta_microseconds_div10 (msg_offset msg))
    (timedelta_microseconds_div10 (msg_offset msg + msg_duration msg)%Z)
    (msg_text msg).

(** Both [timedelta]s of the [Subtitle] can be built. *)
Definition ticks_fit (msg : TTSChunk) : bool :=
  timedelta_fits (timedelta_microseconds_div10 (msg_offset msg))
  && timedelta_fits
       (timedelta_microseconds_div10 (msg_offset msg + msg_duration msg)%Z).

(** The end of [feed]: the [Subtitle] is built, which raises when a
    [timedelta] cannot be, and appended to the buffer. *)
Definition append_subtitle (self : SubMaker) (msg : TTSChunk)
    : outcome * SubMaker :=
  if ticks_fit msg then (Returned, buffer_append self (subtitle_of self msg))
  else (Raised OverflowError, self).

(** The result pairs the way the call ended with the object as the call
    left it. *)
Definition feed (self : SubMaker) (msg : TTSChunk) : outcome * SubMaker :=
  if negb (is_boundary_type (msg_type msg)) then
    (Raised InvalidEventKind, self)
  else
    match type self with
    | None =>
        let self := set_type self (Some (msg_type msg)) in
        append_subtitle self msg
    | Some t =>
        if negb (t =? msg_type msg) then
          (Raised (MixedEventKind t (msg_type msg)), self)
        else
          append_subtitle self msg
    end.

(** ** [_group_words_by_lines] *)

(** [accumulated_text += (" " if accumulated_text else "") + word.content] *)
Definition accumulate (accumulated_text word_content : string) : string :=
  accumulated_text
  ++ ((if PyStr.truthy accumulated_text then " " else "") ++ word_content).

(** The two tests that end the inner loop, in the order of the source. *)
Definition exact_match (accumulated_text line_text_lower : string) : bool :=
  PyStr.lower accumulated_text =? line_text_lower.

Definition containment_match
    (accumulated_text line_text line_text_lower : string) : bool :=
  (String.length line_text <=? String.length accumulated_text)%nat
  && PyStr.contains line_text_lower (PyStr.lower accumulated_text).

(** The inner [while word_index < len(self._all_words_buffer)] loop.  Each
    round reads one word, so [len(buffer) - word_index] rounds are all the
    loop can make; [fuel] counts them. *)
Fixpoint collect_loop (fuel : nat) (buffer : list Subtitle)
    (line_text line_text_lower : string)
    (word_index : nat) (line_words : list string) (accumulated_text : string)
    {struct fuel} : nat * list string * string :=
  match fuel with
  | O => (word_index, line_words, accumulated_text)
  | S fuel =>
      match nth_error buffer word_index with
      | None => (word_index, line_words, accumulated_text)
      | Some word =>
          let line_words := line_words ++ [content word] in
          let accumulated_text := accumulate accumulated_text (content word) in
          let word_index := S word_index in
          if exact_match accumulated_text line_text_lower then
            (word_index, line_words, accumulated_text)
          else if containment_match accumulated_text line_text line_text_lower
          then (word_index, line_words, accumulated_text)
          else collect_loop fuel buffer line_text line_text_lower
                 word_index line_words accumulated_text
      end
  end.

(** One round of [for line_idx, line_text in enumerate(self._line_groups)]
    up to the end of its [while]: the cursor after the line, the line's
    words and the accumulated text. *)
Definition collect_line (buffer : list Subtitle) (line_text : string)
    (word_index : nat) : nat * list string * string :=
  collect_loop (List.length buffer - word_index) buffer
    line_text (PyStr.lower line_text) word_index [] "".

(** The [for] loop over the reference lines. *)
Fixpoint lines_loop (buffer : list Subtitle) (lines : list string)
    (word_index : nat) (all_words_content : list string)
    : nat * list string :=
  match lines with
  | [] => (word_index, all_words_content)
  | line_text :: lines =>
      let '(word_index, line_words, _) :=
        collect_line buffer line_text word_index in
      lines_loop buffer lines word_index
        (all_words_content ++ [PyStr.join " " line_words])
  end.

(** The second [while] loop, [# Add any remaining words]. *)
Fixpoint remaining_loop (fuel : nat) (buffer : list Subtitle)
    (word_index : nat) (all_words_content : list string)
    {struct fuel} : nat * list string :=
  match fuel with
  | O => (word_index, all_words_content)
  | S fuel =>
      match nth_error buffer word_index with
      | None => (word_index, all_words_content)
      | Some word =>
          remaining_loop fuel buffer (S word_index)
            (all_words_content ++ [content word])
      end
  end.

(** [all_words_content] as it stands when the two loops are over. *)
Definition all_words_content_of (buffer : list Subtitle)
    (lines : list string) : list string :=
  let '(word_index, all_words_content) := lines_loop buffer lines 0 [] in
  snd (remaining_loop (List.length buffer - word_index) buffer
         word_index all_words_content).

Definition _group_words_by_lines (self : SubMaker) : SubMaker :=
  let buffer := _all_words_buffer self in
  match buffer, _line_groups self with
  | [], _ => self
  | _, None => self
  | _, Some [] => self
  | first :: _, Some lines =>
      let all_words_content := all_words_content_of buffer lines in
      let combined :=
        mkSubtitle 1 (start first) (end_ (last buffer first))
          (PyStr.join PyStr.LF all_words_content) in
      cues_append self combined
  end.

(** ** [get_srt] *)

Definition lines_truthy (g : option (list string)) : bool :=
  match g with
  | Some (_ :: _) => true
  | _ => false
  end.

Definition is_word_boundary (t : option string) : bool :=
  match t with
  | Some t => t =? "WordBoundary"
  | None => false
  end.

Definition buffer_truthy (b : list Subtitle) : bool :=
  match b with
  | [] => false
  | _ :: _ => true
  end.

(** The guard of [get_srt]: line groups, word boundaries and a buffer. *)
Definition groups_by_lines (self : SubMaker) : bool :=
  lines_truthy (_line_groups self)
  && is_word_boundary (type self)
  && buffer_truthy (_all_words_buffer self).

(** [get_srt] returns [compose(self.cues)].  [compose] belongs to
    [srt_composer], outside the sources; the embedding returns the list
    handed to it, with the object as the call left it. *)
Definition get_srt (self : SubMaker) : list Subtitle * SubMaker :=
  let self :=
    if groups_by_lines self then _group_words_by_lines self
    else set_cues self BufferList in
  (cues_list self, self).

Definition __str__ (self : SubMaker) : list Subtitle * SubMaker :=
  get_srt self.

(** ** Vocabulary of the properties *)

(** The test that ends the reading of a line: the accumulated text equals
    the line, case apart, or is at least as long and contains it, case
    apart.  By definition the disjunction of the two tests of the loop. *)
Definition stop_condition (accumulated_text line_text : string) : bool :=
  (PyStr.lower accumulated_text =? PyStr.lower line_text)
  || ((String.length line_text <=? String.length accumulated_text)%nat
      && PyStr.contains (PyStr.lower line_text) (PyStr.lower accumulated_text)).

(** The texts of [buffer[i:j]]. *)
Definition words_between (buffer : list Subtitle) (i j : nat) : list string :=
  map content (firstn (j - i) (skipn i buffer)).

(** The accumulated text after reading the words [ws] from an empty one. *)
Definition accumulated (ws : list string) : string :=
  fold_left accumulate ws "".

(** [n] line breaks in a row. *)
Fixpoint line_breaks (n : nat) : string :=
  match n with
  | O => ""
  | S n => PyStr.LF ++ line_breaks n
  end.

(** Feeding a list of events in order; an exception ends the run where it
    is raised. *)
Fixpoint feed_all (self : SubMaker) (msgs : list TTSChunk)
    : outcome * SubMaker :=
  match msgs with
  | [] => (Returned, self)
  | msg :: msgs =>
      match feed self msg with
      | (Returned, self) => feed_all self msgs
      | raised => raised
      end
  end.

(** The cue of the event fed in position [i] (counted from 1). *)
Definition cue_of_event (i : nat) (msg : TTSChunk) : Subtitle :=
  mkSubtitle i
    (timedelta_microseconds_div10 (msg_offset msg))
    (timedelta_microseconds_div10 (msg_offset msg + msg_duration msg)%Z)
    (msg_text msg).

Fixpoint cues_of_events (i : nat) (msgs : list TTSChunk) : list Subtitle :=
  match msgs with
  | [] => []
  | msg :: msgs => cue_of_event i msg :: cues_of_events (S i) msgs
  end.

(** The sessions a caller can build: the constructor, then [feed] and
    [get_srt] in any order; a caller that catches the exception of a
    [feed] goes on with the object as the call left it.  The list is that
    of the events fed with success. *)
Inductive session (text : option string) : list TTSChunk -> SubMaker -> Prop :=
| session_init :
    session text [] (__init__ text)
| session_feed : forall msgs self msg self',
    session text msgs self ->
    feed self msg = (Returned, self') ->
    session text (msgs ++ [msg]) self'
| session_feed_raised : forall msgs self msg e self',
    session text msgs self ->
    feed self msg = (Raised e, self') ->
    session text msgs self'
| session_get_srt : forall msgs self,
    session text msgs self ->
    session text msgs (snd (get_srt self)).

(** The event carries one of the two kinds [feed] accepts. *)
Definition recognized (msg : TTSChunk) : Prop :=
  msg_type msg = "WordBoundary" \/ msg_type msg = "SentenceBoundary".

(** The exact length in seconds of a count of 100 ns ticks. *)
Definition ticks_seconds (ticks : Z) : Q := Qmake ticks 10000000.

(** The session of the worked scenario: three words on two lines. *)
Definition hello_world_foo : SubMaker :=
  snd (feed_all
         (__init__ (Some ("Hello world" ++ PyStr.LF ++ "foo")%string))
         [ mkTTSChunk "WordBoundary" "Hello" 0 1000000;
           mkTTSChunk "WordBoundary" "world" 1000000 1000000;
           mkTTSChunk "WordBoundary" "foo" 2000000 1000000 ]%Z).

(** [n + 1] calls of [get_srt] in a row; the result of the last one. *)
Fixpoint get_srt_times (n : nat) (self : SubMaker)
    : list Subtitle * SubMaker :=
  match n with
  | O => get_srt self
  | S n => get_srt_times n (snd (get_srt self))
  end.

(** The one cue of the line grouping. *)
Definition combined_cue (buffer : list Subtitle) (lines : list string)
    (first : Subtitle) : Subtitle :=
  mkSubtitle 1 (start first) (end_ (last buffer first))
    (PyStr.join PyStr.LF (all_words_content_of buffer lines)).

(** A word for the line "Hello", none for the two lines after it: the
    content ends with two line breaks. *)
Definition hello_then_starved : SubMaker :=
  snd (feed_all
         (__init__ (Some ("Hello" ++ PyStr.LF ++ "second" ++ PyStr.LF
                          ++ "third")%string))
         [ mkTTSChunk "WordBoundary" "Hello" 0 1000000 ]%Z).

(** Two sentences fed to a session without reference text. *)
Definition two_sentences : list TTSChunk :=
  [ mkTTSChunk "SentenceBoundary" "One." 0 5000000;
    mkTTSChunk "SentenceBoundary" "Two." 5000000 7000000 ]%Z.

(** The text and the events of the worked scenario. *)
Definition hello_world_foo_text : string :=
  ("Hello world" ++ PyStr.LF ++ "foo")%string.

Definition hello_world_foo_events : list TTSChunk :=
  [ mkTTSChunk "WordBoundary" "Hello" 0 1000000;
    mkTTSChunk "WordBoundary" "world" 1000000 1000000;
    mkTTSChunk "WordBoundary" "foo" 2000000 1000000 ]%Z.

(** * Properties *)

(** ** Strings and lists *)

Lemma append_empty_r (s : string) : (s ++ "")%string = s.
Proof. induction s as [|c s IH]; simpl; [reflexivity | now rewrite IH]. Qed.

Lemma append_assoc (a b c : string) :
  ((a ++ b) ++ c)%string = (a ++ (b ++ c))%string.
Proof. induction a as [|x a IH]; simpl; [reflexivity | now rewrite IH]. Qed.

Lemma join_singleton (sep w : string) : PyStr.join sep [w] = w.
Proof. reflexivity. Qed.

Lemma join_cons2 (sep a b : string) (l : list string) :
  PyStr.join sep (a :: b :: l)
  = (a ++ sep ++ PyStr.join sep (b :: l))%string.
Proof. reflexivity. Qed.

Lemma join_map_singleton (sep : string) (ws : list string) :
  map (PyStr.join sep) (map (fun w => [w]) ws) = ws.
Proof.
  induction ws as [|w ws IH]; simpl; [reflexivity|].
  now rewrite IH.
Qed.

Lemma concat_map_singleton (A : Type) (ws : list A) :
  List.concat (map (fun w => [w]) ws) = ws.
Proof. induction ws as [|w ws IH]; simpl; [reflexivity | now rewrite IH]. Qed.

Lemma concat_repeat_nil (A : Type) (k : nat) :
  List.concat (repeat (@nil A) k) = [].
Proof. induction k; simpl; auto. Qed.

(** Empty pieces after a first piece add one separator each. *)
Lemma join_cons_repeat_empty (a : string) (k : nat) :
  PyStr.join PyStr.LF (a :: repeat "" k) = (a ++ line_breaks k)%string.
Proof.
  revert a. induction k as [|k IH]; intros a.
  - simpl. now rewrite append_empty_r.
  - change (repeat "" (S k)) with ("" :: repeat "" k).
    rewrite join_cons2, IH. reflexivity.
Qed.

(** Empty pieces at the end of a non-empty list add one separator each. *)
Lemma join_trailing_empty (l : list string) (k : nat) :
  l <> [] ->
  PyStr.join PyStr.LF (l ++ repeat "" k)
  = (PyStr.join PyStr.LF l ++ line_breaks k)%string.
Proof.
  intros Hl. induction l as [|a l IH]; [congruence|].
  destruct l as [|b l].
  - apply join_cons_repeat_empty.
  - change ((a :: b :: l) ++ repeat "" k)
      with (a :: b :: (l ++ repeat "" k)).
    rewrite !join_cons2.
    change (b :: l ++ repeat "" k) with ((b :: l) ++ repeat "" k).
    rewrite IH by discriminate.
    now rewrite !append_assoc.
Qed.

(** ** Slices of the buffer *)

Lemma skipn_nth_error (A : Type) (l : list A) (i : nat) (x : A) :
  nth_error l i = Some x -> skipn i l = x :: skipn (S i) l.
Proof.
  revert i. induction l as [|y l IH]; intros [|i] H; simpl in *;
    try discriminate.
  - now inversion H.
  - now apply IH.
Qed.

Lemma firstn_add (A : Type) (a c : nat) (l : list A) :
  firstn (a + c) l = firstn a l ++ firstn c (skipn a l).
Proof.
  revert l. induction a as [|a IH]; intros l; [reflexivity|].
  destruct l as [|x l]; simpl.
  - now rewrite firstn_nil.
  - now rewrite IH.
Qed.

Lemma words_between_empty (buffer : list Subtitle) (i j : nat) :
  j <= i -> words_between buffer i j = [].
Proof.
  intros H. unfold words_between.
  replace (j - i) with 0 by lia. reflexivity.
Qed.

Lemma words_between_step (buffer : list Subtitle) (i j : nat) (w : Subtitle) :
  nth_error buffer i = Some w -> i < j ->
  words_between buffer i j = content w :: words_between buffer (S i) j.
Proof.
  intros Hw Hij. unfold words_between.
  rewrite (skipn_nth_error _ _ _ _ Hw).
  replace (j - i) with (S (j - S i)) by lia. reflexivity.
Qed.

Lemma words_between_one (buffer : list Subtitle) (i : nat) (w : Subtitle) :
  nth_error buffer i = Some w ->
  words_between buffer i (S i) = [content w].
Proof.
  intros Hw. rewrite (words_between_step _ _ _ _ Hw) by lia.
  now rewrite words_between_empty by lia.
Qed.

Lemma words_between_app (buffer : list Subtitle) (i j k : nat) :
  i <= j -> j <= k ->
  words_between buffer i j ++ words_between buffer j k
  = words_between buffer i k.
Proof.
  intros Hij Hjk. unfold words_between.
  replace (k - i) with ((j - i) + (k - j)) by lia.
  rewrite firstn_add, map_app, skipn_skipn.
  replace (j - i + i) with j by lia. reflexivity.
Qed.

Lemma words_between_rest (buffer : list Subtitle) (i j : nat) :
  i <= j ->
  words_between buffer i j ++ map content (skipn j buffer)
  = map content (skipn i buffer).
Proof.
  intros Hij. unfold words_between.
  rewrite <- map_app. f_equal.
  replace j with ((j - i) + i) at 2 by lia.
  rewrite <- skipn_skipn. apply firstn_skipn.
Qed.

Lemma words_between_all (buffer : list Subtitle) :
  words_between buffer 0 (List.length buffer) = map content buffer.
Proof.
  unfold words_between. rewrite Nat.sub_0_r. simpl.
  now rewrite firstn_all.
Qed.

(** ** The inner loop *)

Lemma stop_condition_tests (accumulated_text line_text : string) :
  stop_condition accumulated_text line_text
  = exact_match accumulated_text (PyStr.lower line_text)
    || containment_match accumulated_text line_text (PyStr.lower line_text).
Proof. reflexivity. Qed.

(** What a run of the inner loop with fuel enough returns. *)
Lemma collect_loop_spec (buffer : list Subtitle) (line_text : string) :
  forall fuel word_index line_words accumulated_text j lw acc,
    List.length buffer - word_index <= fuel ->
    collect_loop fuel buffer line_text (PyStr.lower line_text)
      word_index line_words accumulated_text = (j, lw, acc) ->
    lw = line_words ++ words_between buffer word_index j
    /\ acc = fold_left accumulate (words_between buffer word_index j)
               accumulated_text
    /\ (word_index < List.length buffer ->
        word_index < j <= List.length buffer)
    /\ (List.length buffer <= word_index -> j = word_index)
    /\ (stop_condition acc line_text = true \/ List.length buffer <= j)
    /\ (forall k, word_index < k < j ->
          stop_condition
            (fold_left accumulate (words_between buffer word_index k)
               accumulated_text) line_text = false).
Proof.
  assert (Hdone : forall i lw0 acc0 j lw acc,
             List.length buffer <= i -> (i, lw0, acc0) = (j, lw, acc) ->
             lw = lw0 ++ words_between buffer i j
             /\ acc = fold_left accumulate (words_between buffer i j) acc0
             /\ (i < List.length buffer -> i < j <= List.length buffer)
             /\ (List.length buffer <= i -> j = i)
             /\ (stop_condition acc line_text = true \/ List.length buffer <= j)
             /\ (forall k, i < k < j ->
                   stop_condition
                     (fold_left accumulate (words_between buffer i k) acc0)
                     line_text = false)).
  { intros i lw0 acc0 j lw acc Hlen Heq. inversion Heq; subst.
    rewrite words_between_empty by lia. rewrite app_nil_r. simpl.
    repeat split; try lia; auto. }
  induction fuel as [|fuel IH];
    intros i lw0 acc0 j lw acc Hfuel Hrun; simpl in Hrun.
  - apply Hdone; [lia | exact Hrun].
  - destruct (nth_error buffer i) as [word|] eqn:Hword.
    + assert (Hi : i < List.length buffer)
        by (apply nth_error_Some; congruence).
      pose proof (stop_condition_tests (accumulate acc0 (content word))
                    line_text) as Hstop.
      destruct (exact_match (accumulate acc0 (content word))
                  (PyStr.lower line_text)) eqn:Hexact;
        [|destruct (containment_match (accumulate acc0 (content word))
                      line_text (PyStr.lower line_text)) eqn:Hcont].
      1,2: inversion Hrun; subst;
        rewrite (words_between_one _ _ _ Hword); simpl;
        repeat split; try lia; auto; intros k Hk; lia.
      simpl in Hstop.
      apply IH in Hrun; [|lia].
      destruct Hrun as (Hlw & Hacc & Hlt & Hge & Hend & Hbefore).
      assert (Hj : S i <= j /\ j <= List.length buffer).
      { destruct (Nat.eq_dec (S i) (List.length buffer)) as [E|E].
        - rewrite Hge by lia. lia.
        - assert (S i < List.length buffer) by lia. specialize (Hlt H). lia. }
      rewrite (words_between_step _ _ _ _ Hword) by lia.
      repeat split; try lia; auto.
      * rewrite Hlw, <- app_assoc. reflexivity.
      * intros k Hk.
        destruct (Nat.eq_dec k (S i)) as [->|Hne].
        -- rewrite (words_between_one _ _ _ Hword). exact Hstop.
        -- rewrite (words_between_step _ _ _ _ Hword) by lia.
           apply Hbefore. lia.
    + apply Hdone; [|exact Hrun].
      now apply nth_error_None.
Qed.

Lemma collect_line_spec (buffer : list Subtitle) (line_text : string)
    (word_index j : nat) (lw : list string) (acc : string) :
  collect_line buffer line_text word_index = (j, lw, acc) ->
  lw = words_between buffer word_index j
  /\ acc = accumulated (words_between buffer word_index j)
  /\ (word_index < List.length buffer -> word_index < j <= List.length buffer)
  /\ (List.length buffer <= word_index -> j = word_index)
  /\ (stop_condition acc line_text = true \/ List.length buffer <= j)
  /\ (forall k, word_index < k < j ->
        stop_condition (accumulated (words_between buffer word_index k))
          line_text = false).
Proof.
  intros H. unfold collect_line in H.
  apply collect_loop_spec in H; [|lia]. exact H.
Qed.

(** ** The loop over the lines and the loop over the words left *)


Lemma words_between_nonempty (buffer : list Subtitle) (i j : nat) :
  i < List.length buffer -> i < j -> words_between buffer i j <> [].
Proof.
  intros Hi Hij.
  destruct (nth_error buffer i) as [w|] eqn:Hw.
  - rewrite (words_between_step _ _ _ _ Hw Hij). discriminate.
  - apply nth_error_None in Hw. lia.
Qed.

(** The list built so far is only ever extended. *)
Lemma lines_loop_acc (buffer : list Subtitle) (lines : list string) :
  forall word_index all_words_content,
    lines_loop buffer lines word_index all_words_content
    = (fst (lines_loop buffer lines word_index []),
       all_words_content ++ snd (lines_loop buffer lines word_index [])).
Proof.
  induction lines as [|line_text lines IH]; intros i awc; simpl.
  - now rewrite app_nil_r.
  - destruct (collect_line buffer line_text i) as [[j lw] acc].
    rewrite (IH j (awc ++ [PyStr.join " " lw])), (IH j [PyStr.join " " lw]).
    simpl. now rewrite <- app_assoc.
Qed.

Lemma lines_loop_app (buffer : list Subtitle) (lines1 lines2 : list string) :
  forall word_index all_words_content,
    lines_loop buffer (lines1 ++ lines2) word_index all_words_content
    = lines_loop buffer lines2
        (fst (lines_loop buffer lines1 word_index all_words_content))
        (snd (lines_loop buffer lines1 word_index all_words_content)).
Proof.
  induction lines1 as [|line_text lines1 IH]; intros i awc; simpl.
  - reflexivity.
  - destruct (collect_line buffer line_text i) as [[j lw] acc]. apply IH.
Qed.

(** With the buffer read to its end a line gets no word. *)
Lemma collect_line_exhausted (buffer : list Subtitle) (line_text : string)
    (word_index : nat) :
  List.length buffer <= word_index ->
  collect_line buffer line_text word_index = (word_index, [], "").
Proof.
  intros H. unfold collect_line.
  replace (List.length buffer - word_index) with 0 by lia. reflexivity.
Qed.

Lemma lines_loop_exhausted (buffer : list Subtitle) (lines : list string) :
  forall word_index all_words_content,
    List.length buffer <= word_index ->
    lines_loop buffer lines word_index all_words_content
    = (word_index, all_words_content ++ repeat "" (List.length lines)).
Proof.
  induction lines as [|line_text lines IH]; intros i awc H; simpl.
  - now rewrite app_nil_r.
  - rewrite collect_line_exhausted by exact H.
    rewrite IH by exact H. now rewrite <- app_assoc.
Qed.

(** The lines cut the words they read into groups: non-empty groups as
    long as words are left, then one empty string for each line that finds
    the buffer read to its end. *)
Lemma lines_loop_groups (buffer : list Subtitle) (lines : list string) :
  forall word_index,
    word_index <= List.length buffer ->
    exists groups k j,
      lines_loop buffer lines word_index []
      = (j, map (PyStr.join " ") groups ++ repeat "" k)
      /\ word_index <= j <= List.length buffer
      /\ List.concat groups = words_between buffer word_index j
      /\ Forall (fun g => g <> []) groups
      /\ (k = 0 \/ j = List.length buffer)
      /\ List.length groups + k = List.length lines.
Proof.
  induction lines as [|line_text lines IH]; intros i Hi.
  - exists [], 0, i. simpl. rewrite words_between_empty by lia.
    repeat split; auto; lia.
  - destruct (Nat.eq_dec i (List.length buffer)) as [Hend|Hmore].
    + exists [], (S (List.length lines)), i.
      rewrite lines_loop_exhausted by lia.
      rewrite words_between_empty by lia.
      repeat split; auto; simpl; lia.
    + simpl.
      destruct (collect_line buffer line_text i) as [[j1 lw] acc] eqn:Hline.
      apply collect_line_spec in Hline.
      destruct Hline as (Hlw & _ & Hlt & _).
      specialize (Hlt ltac:(lia)).
      destruct (IH j1 ltac:(lia)) as (groups & k & j & Hrun & Hj & Hcat & Hne & Hk & Hlen).
      exists (lw :: groups), k, j.
      rewrite lines_loop_acc, Hrun. simpl.
      repeat split; try lia; auto.
      * rewrite Hcat, Hlw. apply words_between_app; lia.
      * constructor; [|exact Hne].
        rewrite Hlw. apply words_between_nonempty; lia.
Qed.

Lemma remaining_loop_spec (buffer : list Subtitle) :
  forall fuel word_index all_words_content,
    List.length buffer - word_index <= fuel ->
    remaining_loop fuel buffer word_index all_words_content
    = (Nat.max word_index (List.length buffer),
       all_words_content ++ map content (skipn word_index buffer)).
Proof.
  induction fuel as [|fuel IH]; intros i awc Hfuel; simpl.
  - rewrite skipn_all2 by lia. simpl. rewrite app_nil_r.
    f_equal. lia.
  - destruct (nth_error buffer i) as [w|] eqn:Hw.
    + assert (i < List.length buffer) by (apply nth_error_Some; congruence).
      rewrite IH by lia. rewrite (skipn_nth_error _ _ _ _ Hw).
      replace (Nat.max (S i) (List.length buffer))
        with (Nat.max i (List.length buffer)) by lia.
      rewrite <- app_assoc. reflexivity.
    + apply nth_error_None in Hw.
      rewrite skipn_all2 by lia. simpl. rewrite app_nil_r.
      f_equal. lia.
Qed.

(** The words left after the lines come one to a line. *)
Lemma all_words_content_of_leftover (buffer : list Subtitle)
    (lines : list string) :
  all_words_content_of buffer lines
  = snd (lines_loop buffer lines 0 [])
    ++ map content (skipn (fst (lines_loop buffer lines 0 [])) buffer).
Proof.
  unfold all_words_content_of.
  destruct (lines_loop buffer lines 0 []) as [j awc].
  rewrite remaining_loop_spec by lia. reflexivity.
Qed.

(** The whole list: every word of the buffer, in groups. *)
Lemma all_words_content_of_groups (buffer : list Subtitle)
    (lines : list string) :
  exists groups k,
    all_words_content_of buffer lines
    = map (PyStr.join " ") groups ++ repeat "" k
    /\ List.concat groups = map content buffer
    /\ Forall (fun g => g <> []) groups.
Proof.
  rewrite all_words_content_of_leftover.
  destruct (lines_loop_groups buffer lines 0 ltac:(lia))
    as (groups & k & j & Hrun & Hj & Hcat & Hne & Hk & _).
  rewrite Hrun. simpl.
  destruct Hk as [-> | ->].
  - exists (groups ++ map (fun w => [w]) (map content (skipn j buffer))), 0.
    simpl. rewrite !app_nil_r.
    rewrite map_app, concat_app, Hcat.
    rewrite join_map_singleton, concat_map_singleton.
    repeat split.
    + apply (words_between_rest buffer 0 j). lia.
    + apply Forall_app. split; [exact Hne|].
      apply Forall_forall. intros g Hg.
      apply in_map_iff in Hg. destruct Hg as (w & <- & _). discriminate.
  - exists groups, k.
    rewrite skipn_all. simpl. rewrite app_nil_r.
    repeat split; auto.
    rewrite Hcat. apply words_between_all.
Qed.

(** ** Rounding to whole microseconds *)

Lemma round_half_even_10_cases (t : Z) :
  exists q r : Z,
    (t = 10 * q + r /\ 0 <= r < 10)%Z
    /\ ((r < 5 /\ round_half_even t 10 = q)
        \/ (5 < r /\ round_half_even t 10 = q + 1)
        \/ (r = 5 /\ (round_half_even t 10 = q \/ round_half_even t 10 = q + 1)))%Z.
Proof.
  exists (t / 10)%Z, (t mod 10)%Z.
  pose proof (Z.div_mod t 10 ltac:(lia)) as Hdm.
  pose proof (Z.mod_pos_bound t 10 ltac:(lia)) as Hr.
  split; [lia|].
  unfold round_half_even.
  destruct (2 * (t mod 10) <? 10)%Z eqn:H1; [left; split; [lia | reflexivity]|].
  destruct (10 <? 2 * (t mod 10))%Z eqn:H2; [right; left; split; [lia | reflexivity]|].
  right; right. split; [lia|].
  destruct (Z.even (t / 10)); auto.
Qed.

Local Open Scope Z_scope.

Lemma round_half_even_cases (num den : Z) :
  0 < den ->
  exists q r : Z,
    num = den * q + r /\ 0 <= r < den /\ q = num / den
    /\ ((2 * r < den /\ round_half_even num den = q)
        \/ (den < 2 * r /\ round_half_even num den = q + 1)
        \/ (2 * r = den /\ Z.even q = true /\ round_half_even num den = q)
        \/ (2 * r = den /\ Z.even q = false /\ round_half_even num den = q + 1)).
Proof.
  intros Hden. exists (num / den), (num mod den).
  pose proof (Z.div_mod num den ltac:(lia)) as Hdm.
  pose proof (Z.mod_pos_bound num den Hden) as Hr.
  split; [lia|]. split; [lia|]. split; [reflexivity|].
  unfold round_half_even.
  destruct (2 * (num mod den) <? den) eqn:H1; [left; split; [lia | reflexivity]|].
  destruct (den <? 2 * (num mod den)) eqn:H2;
    [right; left; split; [lia | reflexivity]|].
  right; right.
  destruct (Z.even (num / den)); [left | right]; repeat split; lia.
Qed.

Lemma round_half_even_mono (a b den : Z) :
  0 < den -> a <= b -> round_half_even a den <= round_half_even b den.
Proof.
  intros Hden Hab.
  destruct (round_half_even_cases a den Hden) as (qa & ra & Ha & Hra & Hqa & Ca).
  destruct (round_half_even_cases b den Hden) as (qb & rb & Hb & Hrb & Hqb & Cb).
  assert (Hq : qa <= qb) by (subst qa qb; apply Z.div_le_mono; lia).
  destruct (Z.eq_dec qa qb) as [E|E].
  - subst qb. rewrite E in *. 
    assert (ra <= rb) by lia.
    destruct Ca as [C|[C|[C|C]]], Cb as [D|[D|[D|D]]]; try lia;
      destruct C as (? & C1 & ?); destruct D as (? & D1 & ?); congruence.
  - destruct Ca as [C|[C|[C|C]]], Cb as [D|[D|[D|D]]]; lia.
Qed.

Lemma round_half_even_exact (k den : Z) :
  0 < den -> round_half_even (k * den) den = k.
Proof.
  intros Hden. unfold round_half_even.
  rewrite Z.div_mul, Z.mod_mul by lia.
  destruct (2 * 0 <? den) eqn:H; [reflexivity | lia].
Qed.

Lemma round_half_even_scale (c num den : Z) :
  0 < c -> 0 < den ->
  round_half_even (c * num) (c * den) = round_half_even num den.
Proof.
  intros Hc Hden. unfold round_half_even.
  rewrite Z.div_mul_cancel_l, Zmult_mod_distr_l by lia.
  pose proof (Z.mod_pos_bound num den Hden) as Hr.
  assert (E1 : (2 * (c * (num mod den)) <? c * den) = (2 * (num mod den) <? den)).
  { apply Bool.eq_true_iff_eq. rewrite !Z.ltb_lt. nia. }
  assert (E2 : (c * den <? 2 * (c * (num mod den))) = (den <? 2 * (num mod den))).
  { apply Bool.eq_true_iff_eq. rewrite !Z.ltb_lt. nia. }
  now rewrite E1, E2.
Qed.

Lemma round_half_even_lower (lo num den : Z) :
  0 < den -> lo * den <= num -> lo <= round_half_even num den.
Proof.
  intros Hden H. rewrite <- (round_half_even_exact lo den Hden).
  now apply round_half_even_mono.
Qed.

Lemma round_half_even_upper (hi num den : Z) :
  0 < den -> num <= hi * den -> round_half_even num den <= hi.
Proof.
  intros Hden H. rewrite <- (round_half_even_exact hi den Hden).
  now apply round_half_even_mono.
Qed.

Lemma ulp_exponent_nonneg (n : Z) : 0 <= ulp_exponent n.
Proof.
  unfold ulp_exponent. pose proof (Z.log2_nonneg n).
  destruct (_ <=? _); lia.
Qed.

(** The mantissa before rounding has 53 bits. *)
Lemma ulp_exponent_spec (n : Z) :
  0 < n ->
  let u := 2 ^ ulp_exponent n in
  0 < u /\ 2 ^ 52 * (10 * u) <= float_scale * n < 2 ^ 53 * (10 * u).
Proof.
  intros Hn u. subst u. unfold ulp_exponent.
  pose proof (Z.log2_nonneg n) as Hl.
  destruct (Z.log2_spec n Hn) as [Hlo Hhi].
  rewrite Z.pow_succ_r in Hhi by lia.
  set (l := Z.log2 n) in *.
  assert (Hx : 0 < 2 ^ l) by (apply Z.pow_pos_nonneg; lia).
  assert (E1 : 2 ^ (l + 1) = 2 * 2 ^ l)
    by (replace (l + 1) with (Z.succ l) by lia; apply Z.pow_succ_r; lia).
  assert (E0 : 2 ^ (l + 1 - 1) = 2 ^ l) by (f_equal; lia).
  unfold float_scale.
  change (2 ^ 56) with 72057594037927936.
  change (2 ^ 52) with 4503599627370496.
  change (2 ^ 53) with 9007199254740992.
  destruct (4503599627370496 <=? 72057594037927936 * n / (10 * 2 ^ (l + 1))) eqn:Hc.
  - apply Z.leb_le in Hc. rewrite E1 in *.
    split; [lia|]. split; [|lia].
    apply (Z.mul_le_mono_nonneg_r _ _ (10 * (2 * 2 ^ l))) in Hc; [|lia].
    pose proof (Z.mul_div_le (72057594037927936 * n) (10 * (2 * 2 ^ l)) ltac:(lia)).
    lia.
  - apply Z.leb_gt in Hc. rewrite E0. rewrite E1 in Hc.
    split; [lia|]. split; [lia|].
    pose proof (Z.mul_succ_div_gt (72057594037927936 * n) (10 * (2 * 2 ^ l))
                  ltac:(lia)) as Hgt.
    assert (10 * (2 * 2 ^ l)
            * Z.succ (72057594037927936 * n / (10 * (2 * 2 ^ l)))
            <= 10 * (2 * 2 ^ l) * 4503599627370496)
      by (apply Z.mul_le_mono_nonneg_l; lia).
    lia.
Qed.

Lemma true_div10_0 : true_div10 0 = 0.
Proof. reflexivity. Qed.

Lemma pow2_lt_double (s s' : Z) : 0 <= s < s' -> 2 * 2 ^ s <= 2 ^ s'.
Proof.
  intros H. rewrite <- Z.pow_succ_r by lia.
  apply Z.pow_le_mono_r; lia.
Qed.

Lemma true_div10_mono (n n' : Z) :
  0 <= n <= n' -> true_div10 n <= true_div10 n'.
Proof.
  intros [Hn Hnn].
  destruct (Z.eq_dec n 0) as [->|Hn0].
  { destruct (Z.eq_dec n' 0) as [->|Hn0']; [lia|].
    rewrite true_div10_0. unfold true_div10.
    destruct (ulp_exponent_spec n' ltac:(lia)) as (Hu & Hlo & Hhi).
    apply Z.mul_nonneg_nonneg; [|lia].
    apply (round_half_even_lower 0); unfold float_scale; lia. }
  destruct (ulp_exponent_spec n ltac:(lia)) as (Hu & Hlo & Hhi).
  destruct (ulp_exponent_spec n' ltac:(lia)) as (Hu' & Hlo' & Hhi').
  pose proof (ulp_exponent_nonneg n) as Hs.
  pose proof (ulp_exponent_nonneg n') as Hs'.
  unfold true_div10.
  set (s := ulp_exponent n) in *. set (s' := ulp_exponent n') in *.
  assert (Hm : round_half_even (float_scale * n) (10 * 2 ^ s) <= 2 ^ 53)
    by (apply round_half_even_upper; lia).
  assert (Hm' : 2 ^ 52 <= round_half_even (float_scale * n') (10 * 2 ^ s'))
    by (apply round_half_even_lower; lia).
  assert (HB : 0 < float_scale) by (unfold float_scale; lia).
  destruct (Z.lt_trichotomy s s') as [Hlt|[Heq|Hgt]].
  - pose proof (pow2_lt_double s s' ltac:(lia)) as Hd.
    change (2 ^ 53) with (2 * 2 ^ 52) in Hm. 
    transitivity (2 * 2 ^ 52 * 2 ^ s); [apply Z.mul_le_mono_nonneg_r; lia|].
    transitivity (2 ^ 52 * 2 ^ s'); [lia|].
    apply Z.mul_le_mono_nonneg_r; lia.
  - rewrite <- Heq. apply Z.mul_le_mono_nonneg_r; [lia|].
    apply round_half_even_mono; nia.
  - pose proof (pow2_lt_double s' s ltac:(lia)) as Hd.
    exfalso. change (2 ^ 53) with (2 * 2 ^ 52) in Hhi'.
    assert (float_scale * n <= float_scale * n') by nia. lia.
Qed.

Lemma microseconds_div10_abs_mono (n n' : Z) :
  0 <= n <= n' -> microseconds_div10_abs n <= microseconds_div10_abs n'.
Proof.
  intros H. unfold microseconds_div10_abs.
  apply round_half_even_mono; [unfold float_scale; lia|].
  now apply true_div10_mono.
Qed.

Lemma microseconds_div10_abs_nonneg (n : Z) :
  0 <= n -> 0 <= microseconds_div10_abs n.
Proof.
  intros H. change 0 with (microseconds_div10_abs 0) at 1.
  apply microseconds_div10_abs_mono. lia.
Qed.

Lemma timedelta_microseconds_div10_mono (a b : Z) :
  a <= b -> timedelta_microseconds_div10 a <= timedelta_microseconds_div10 b.
Proof.
  intros Hab. unfold timedelta_microseconds_div10.
  destruct (a <? 0) eqn:Ha, (b <? 0) eqn:Hb;
    rewrite ?Z.ltb_lt, ?Z.ltb_ge in *.
  - pose proof (microseconds_div10_abs_mono (- b) (- a) ltac:(lia)). lia.
  - pose proof (microseconds_div10_abs_nonneg (- a) ltac:(lia)).
    pose proof (microseconds_div10_abs_nonneg b ltac:(lia)). lia.
  - lia.
  - apply microseconds_div10_abs_mono. lia.
Qed.

Lemma round_half_even_twice (n j : Z) :
  0 < j ->
  round_half_even (round_half_even (8 * j * n) 10) (8 * j)
  = round_half_even n 10.
Proof.
  intros Hj.
  destruct (round_half_even_cases n 10 ltac:(lia)) as (q & r & Hn & Hr & _ & Cn).
  destruct (round_half_even_cases (8 * j * n) 10 ltac:(lia))
    as (a & b & Ha & Hb & _ & Ca).
  set (m := round_half_even (8 * j * n) 10) in *.
  destruct (round_half_even_cases m (8 * j) ltac:(lia))
    as (c & d & Hm & Hd & Hc & Cm).
  assert (Hcq : c = q).
  { rewrite Hc. symmetry.
    apply (Z.div_unique m (8 * j) q (m - 8 * j * q)); [left|lia].
    assert (Hr' : r = 0 \/ r = 1 \/ r = 2 \/ r = 3 \/ r = 4 \/ r = 5
                  \/ r = 6 \/ r = 7 \/ r = 8 \/ r = 9) by lia.
    subst n.
    destruct Hr' as [->|[->|[->|[->|[->|[->|[->|[->|[->| ->]]]]]]]]];
      destruct Ca as [C|[C|[C|C]]]; lia. }
  subst c.
  assert (Hr' : r = 0 \/ r = 1 \/ r = 2 \/ r = 3 \/ r = 4 \/ r = 5
                \/ r = 6 \/ r = 7 \/ r = 8 \/ r = 9) by lia.
  subst n.
  destruct Hr' as [->|[->|[->|[->|[->|[->|[->|[->|[->| ->]]]]]]]]];
    destruct Ca as [C|[C|[C|C]]];
    destruct Cm as [D|[D|[D|D]]];
    destruct Cn as [E|[E|[E|E]]];
    try lia;
    destruct D as (? & D1 & ?); destruct E as (? & E1 & ?);
    try lia; congruence.
Qed.

Lemma round_half_even_10_opp (t : Z) :
  round_half_even (- t) 10 = - round_half_even t 10.
Proof.
  destruct (round_half_even_cases t 10 ltac:(lia)) as (q & r & Ht & Hr & _ & C).
  destruct (round_half_even_cases (- t) 10 ltac:(lia))
    as (q' & r' & Ht' & Hr' & _ & C').
  destruct (Z.eq_dec r 5) as [->|Hne].
  - assert (Hq' : q' = - q - 1) by lia. subst q'.
    assert (Heven : Z.even (- q - 1) = negb (Z.even q)).
    { replace (- q - 1) with (- (q + 1)) by lia.
      rewrite Z.even_opp, Z.even_add. simpl.
      now destruct (Z.even q). }
    rewrite Heven in C'.
    destruct C as [C|[C|[C|C]]]; destruct C' as [D|[D|[D|D]]]; try lia;
      destruct C as (_ & C1 & ?); destruct D as (_ & D1 & ?);
      rewrite C1 in D1; try discriminate; lia.
  - destruct C as [C|[C|[C|C]]]; destruct C' as [D|[D|[D|D]]]; lia.
Qed.

Lemma microseconds_div10_abs_small (n : Z) :
  0 <= n < 2 ^ 53 -> microseconds_div10_abs n = round_half_even n 10.
Proof.
  intros [Hn Hlt].
  destruct (Z.eq_dec n 0) as [->|Hn0]; [reflexivity|].
  pose proof (ulp_exponent_nonneg n) as Hs.
  assert (Hs53 : ulp_exponent n <= 53).
  { assert (Z.log2 n < 53) by (apply Z.log2_lt_pow2; lia).
    unfold ulp_exponent. destruct (_ <=? _); lia. }
  unfold microseconds_div10_abs, true_div10.
  set (s := ulp_exponent n) in *.
  assert (Hu : 0 < 2 ^ s) by (apply Z.pow_pos_nonneg; lia).
  assert (Hj : 0 < 2 ^ (53 - s)) by (apply Z.pow_pos_nonneg; lia).
  assert (HB : float_scale = 2 ^ s * (8 * 2 ^ (53 - s))).
  { unfold float_scale. change 8 with (2 ^ 3).
    rewrite <- !Z.pow_add_r by lia. f_equal. lia. }
  rewrite HB.
  replace (2 ^ s * (8 * 2 ^ (53 - s)) * n)
    with (2 ^ s * (8 * 2 ^ (53 - s) * n)) by ring.
  rewrite (Z.mul_comm 10 (2 ^ s)).
  rewrite round_half_even_scale by lia.
  rewrite (Z.mul_comm _ (2 ^ s)).
  rewrite round_half_even_scale by lia.
  now apply round_half_even_twice.
Qed.

Lemma timedelta_microseconds_div10_small (t : Z) :
  - 2 ^ 53 < t < 2 ^ 53 ->
  timedelta_microseconds_div10 t = round_half_even t 10.
Proof.
  intros H. unfold timedelta_microseconds_div10.
  destruct (t <? 0) eqn:Ht; rewrite ?Z.ltb_lt, ?Z.ltb_ge in Ht.
  - rewrite microseconds_div10_abs_small by lia.
    rewrite round_half_even_10_opp. lia.
  - apply microseconds_div10_abs_small. lia.
Qed.

Local Close Scope Z_scope.

(** At these tick counts, below and beyond [2^53], the IEEE 754
    definitions of the standard library give the very microseconds of
    [timedelta_microseconds_div10]. *)
Example rounding_agrees_with_binary64 :
  Forall (fun ticks =>
            round_float (binary64_div ticks 10)
            = Some (timedelta_microseconds_div10 ticks))
    [ 0; 1; 2; 5; 6; 9; 10; 15; 25; -5; -15; 1000000; 1000001; 2000000;
      3000000; 5000000; 12000000; 123456789012345; 2 ^ 53 - 7; 2 ^ 53 - 1;
      2 ^ 53; 2 ^ 53 + 1; 2 ^ 53 + 5; 10 * (2 ^ 53 + 1); 10 * (2 ^ 53 + 3);
      - (10 * (2 ^ 53 + 1)); 10 * (2 ^ 54 + 2); 10 * (2 ^ 54 + 6);
      5 * (2 ^ 60 + 1); 2 ^ 70 + 12345; 10 ^ 21; 863999999999999999994;
      123456789012345678901234 ]%Z.
Proof. repeat constructor. Qed.

(** Beyond [2^53] the float quotient is no longer the exact one: ten
    times [2^53 + 1] gives [2^53] microseconds. *)
Example rounding_beyond_2_53 :
  timedelta_microseconds_div10 (10 * (2 ^ 53 + 1)) = (2 ^ 53)%Z.
Proof. reflexivity. Qed.

(** Below [2^53] the rounding is off by at most half a microsecond
    (5 ticks) and is exact on the multiples of 10. *)
Lemma timedelta_microseconds_div10_error (t : Z) :
  (- 2 ^ 53 < t < 2 ^ 53)%Z ->
  (-5 <= 10 * timedelta_microseconds_div10 t - t <= 5)%Z
  /\ ((10 * timedelta_microseconds_div10 t = t)%Z <-> (t mod 10 = 0)%Z).
Proof.
  intros Ht. rewrite (timedelta_microseconds_div10_small t Ht).
  destruct (round_half_even_10_cases t) as (q & r & (Hq & Hr) & C).
  split; [lia|].
  assert (Hmod : (t mod 10 = r)%Z).
  { symmetry. apply (Z.mod_unique t 10 q r); [left; lia | lia]. }
  rewrite Hmod. split; lia.
Qed.

Lemma ticks_seconds_exact (t : Z) :
  (- 2 ^ 53 < t < 2 ^ 53)%Z ->
  Qeq (total_seconds (timedelta_microseconds_div10 t)) (ticks_seconds t)
  <-> (t mod 10 = 0)%Z.
Proof.
  intros Ht. rewrite <- (proj2 (timedelta_microseconds_div10_error t Ht)).
  unfold Qeq, total_seconds, ticks_seconds. cbn [Qnum Qden]. lia.
Qed.

(** Tick counts below [2^53] are well within what [timedelta] holds. *)
Lemma timedelta_fits_small (t : Z) :
  (- 2 ^ 53 < t < 2 ^ 53)%Z ->
  timedelta_fits (timedelta_microseconds_div10 t) = true.
Proof.
  intros Ht.
  destruct (timedelta_microseconds_div10_error t Ht) as [Herr _].
  unfold timedelta_fits.
  set (us := timedelta_microseconds_div10 t) in *.
  change (2 ^ 53)%Z with 9007199254740992%Z in Ht.
  pose proof (Z.div_mod us 86400000000 ltac:(lia)) as Hdm.
  pose proof (Z.mod_pos_bound us 86400000000 ltac:(lia)) as Hr.
  apply andb_true_iff. split; apply Z.leb_le; lia.
Qed.

(** ** [feed] *)

Lemma is_boundary_type_spec (t : string) :
  is_boundary_type t = true <-> t = "WordBoundary" \/ t = "SentenceBoundary".
Proof.
  unfold is_boundary_type. rewrite orb_true_iff, !String.eqb_eq. reflexivity.
Qed.

Lemma feed_returned (self self' : SubMaker) (msg : TTSChunk) :
  feed self msg = (Returned, self') ->
  is_boundary_type (msg_type msg) = true
  /\ (type self = None \/ type self = Some (msg_type msg))
  /\ cues self' = cues self
  /\ type self' = Some (msg_type msg)
  /\ _line_groups self' = _line_groups self
  /\ _all_words_buffer self'
     = _all_words_buffer self ++ [subtitle_of self msg].
Proof.
  unfold feed, append_subtitle.
  destruct (is_boundary_type (msg_type msg)) eqn:Hb; cbn [negb];
    [|discriminate].
  destruct (ticks_fit msg).
  - destruct (type self) as [t|] eqn:Ht.
    + destruct (String.eqb_spec t (msg_type msg)) as [->|Hne]; cbn [negb];
        [|discriminate].
      intros H. inversion H; subst. cbn. rewrite Ht. auto 10.
    + intros H. inversion H; subst. cbn. auto 10.
  - destruct (type self) as [t|]; [|discriminate].
    destruct (t =? msg_type msg); discriminate.
Qed.

(** A call that returns has built both [timedelta]s. *)
Lemma feed_returned_fits (self self' : SubMaker) (msg : TTSChunk) :
  feed self msg = (Returned, self') -> ticks_fit msg = true.
Proof.
  unfold feed, append_subtitle.
  destruct (is_boundary_type (msg_type msg)); cbn [negb]; [|discriminate].
  destruct (ticks_fit msg); [reflexivity|].
  destruct (type self) as [t|]; [|discriminate].
  destruct (t =? msg_type msg); discriminate.
Qed.

(** A call that raises leaves the lists and the lines alone; the object
    is as it was, unless the call recorded the kind before [timedelta]
    raised. *)
Lemma feed_raised (self self' : SubMaker) (msg : TTSChunk) (e : exception) :
  feed self msg = (Raised e, self') ->
  cues self' = cues self
  /\ _line_groups self' = _line_groups self
  /\ _all_words_buffer self' = _all_words_buffer self
  /\ (self' = self
      \/ (e = OverflowError
          /\ type self = None
          /\ is_boundary_type (msg_type msg) = true
          /\ type self' = Some (msg_type msg))).
Proof.
  unfold feed, append_subtitle.
  destruct (is_boundary_type (msg_type msg)) eqn:Hb; cbn [negb].
  - destruct (type self) as [t|] eqn:Ht.
    + destruct (t =? msg_type msg); cbn [negb].
      * destruct (ticks_fit msg); [discriminate|].
        intros H. inversion H; subst. auto.
      * intros H. inversion H; subst. auto.
    + destruct (ticks_fit msg); [discriminate|].
      intros H. inversion H; subst. cbn. auto 10.
  - intros H. inversion H; subst. auto.
Qed.

Lemma feed_raised_unchanged (self self' : SubMaker) (msg : TTSChunk)
    (e : exception) :
  feed self msg = (Raised e, self') -> e <> OverflowError -> self' = self.
Proof.
  intros H He. apply feed_raised in H.
  destruct H as (_ & _ & _ & [H|(H & _)]); [exact H | contradiction].
Qed.

Lemma cues_of_events_app (msgs1 msgs2 : list TTSChunk) :
  forall i,
    cues_of_events i (msgs1 ++ msgs2)
    = cues_of_events i msgs1
      ++ cues_of_events (i + List.length msgs1) msgs2.
Proof.
  induction msgs1 as [|m msgs1 IH]; intros i; simpl.
  - now rewrite Nat.add_0_r.
  - rewrite IH. do 3 f_equal. lia.
Qed.

Lemma cues_of_events_length (msgs : list TTSChunk) :
  forall i, List.length (cues_of_events i msgs) = List.length msgs.
Proof. induction msgs as [|m msgs IH]; intros i; simpl; auto. Qed.

Lemma cues_of_events_nth (msgs : list TTSChunk) :
  forall i n msg,
    nth_error msgs n = Some msg ->
    nth_error (cues_of_events i msgs) n = Some (cue_of_event (i + n) msg).
Proof.
  induction msgs as [|m msgs IH]; intros i [|n] msg H; simpl in *;
    try discriminate.
  - inversion H; subst. now rewrite Nat.add_0_r.
  - rewrite (IH (S i) n msg H). do 2 f_equal. lia.
Qed.

Lemma cues_of_events_start (msgs : list TTSChunk) :
  forall i,
    map start (cues_of_events i msgs)
    = map (fun m => timedelta_microseconds_div10 (msg_offset m)) msgs.
Proof. induction msgs as [|m msgs IH]; intros i; simpl; [|rewrite IH]; auto. Qed.

(** A run of [feed] that returns each time leaves the binding of [cues]
    and the lines alone and appends the cues of the events. *)
Lemma feed_all_returned (msgs : list TTSChunk) :
  forall self self',
    feed_all self msgs = (Returned, self') ->
    cues self' = cues self
    /\ _line_groups self' = _line_groups self
    /\ _all_words_buffer self'
       = _all_words_buffer self
         ++ cues_of_events (List.length (_all_words_buffer self) + 1) msgs
    /\ (msgs <> [] -> exists t, type self' = Some t /\ is_boundary_type t = true).
Proof.
  induction msgs as [|m msgs IH]; intros s s' H; simpl in H.
  - inversion H; subst. rewrite app_nil_r. repeat split; auto. congruence.
  - destruct (feed s m) as [[|e] s1] eqn:Hfeed; [|discriminate].
    apply feed_returned in Hfeed.
    destruct Hfeed as (Hb & _ & Hc & Ht & Hl & Hbuf).
    destruct (IH _ _ H) as (Hc' & Hl' & Hbuf' & Ht').
    repeat split; try congruence.
    + rewrite Hbuf', Hbuf, <- app_assoc, length_app. simpl.
      do 3 f_equal. lia.
    + intros _. destruct msgs as [|m' msgs].
      * simpl in H. inversion H; subst. eauto.
      * apply Ht'. discriminate.
Qed.

(** Before the first [get_srt] the name [cues] is bound to the empty list
    the constructor made. *)
Lemma cues_before_first_get_srt (text : option string) (msgs : list TTSChunk) :
  cues (snd (feed_all (__init__ text) msgs)) = OwnList [].
Proof.
  assert (H : forall s, cues (snd (feed_all s msgs)) = cues s).
  { induction msgs as [|m msgs IH]; intros s; simpl; [reflexivity|].
    destruct (feed s m) as [[|e] s1] eqn:Hfeed.
    - rewrite IH. now apply feed_returned in Hfeed.
    - simpl. now apply feed_raised in Hfeed. }
  now rewrite H.
Qed.

(** ** [get_srt] *)

Lemma groups_by_lines_spec (self : SubMaker) :
  groups_by_lines self = true <->
  (exists line lines, _line_groups self = Some (line :: lines))
  /\ type self = Some "WordBoundary"
  /\ _all_words_buffer self <> [].
Proof.
  unfold groups_by_lines, lines_truthy, is_word_boundary, buffer_truthy.
  rewrite !andb_true_iff. split.
  - intros [[Hl Ht] Hb]. repeat split.
    + destruct (_line_groups self) as [[|l ls]|]; try discriminate; eauto.
    + destruct (type self) as [t|]; [|discriminate].
      apply String.eqb_eq in Ht. now subst.
    + destruct (_all_words_buffer self); [discriminate | discriminate].
  - intros [(l & ls & ->) [-> Hb]]. repeat split.
    destruct (_all_words_buffer self); [congruence | reflexivity].
Qed.

(** The guard fails exactly in the three cases of the identity mapping. *)
Lemma groups_by_lines_false (self : SubMaker) :
  lines_truthy (_line_groups self) = false
  \/ type self = Some "SentenceBoundary"
  \/ _all_words_buffer self = [] ->
  groups_by_lines self = false.
Proof.
  unfold groups_by_lines. intros [H | [H | H]]; rewrite H.
  - reflexivity.
  - simpl. now rewrite andb_false_r.
  - simpl. now rewrite andb_false_r.
Qed.

Lemma get_srt_identity (self : SubMaker) :
  groups_by_lines self = false ->
  get_srt self = (_all_words_buffer self, set_cues self BufferList).
Proof. intros H. unfold get_srt. rewrite H. reflexivity. Qed.

Lemma get_srt_grouping (self : SubMaker) (first : Subtitle)
    (rest : list Subtitle) (lines : list string) :
  type self = Some "WordBoundary" ->
  _line_groups self = Some lines -> lines <> [] ->
  _all_words_buffer self = first :: rest ->
  snd (get_srt self)
  = cues_append self (combined_cue (first :: rest) lines first).
Proof.
  intros Ht Hl Hne Hb. unfold get_srt.
  assert (Hg : groups_by_lines self = true).
  { apply groups_by_lines_spec. rewrite Hl, Hb.
    destruct lines as [|l ls]; [congruence|]. repeat split; eauto. discriminate. }
  rewrite Hg. simpl. unfold _group_words_by_lines. rewrite Hb, Hl.
  destruct lines as [|l ls]; [congruence|]. reflexivity.
Qed.

Lemma get_srt_fst (self : SubMaker) :
  fst (get_srt self) = cues_list (snd (get_srt self)).
Proof. reflexivity. Qed.

Lemma get_srt_first_grouping (self : SubMaker) (first : Subtitle)
    (rest : list Subtitle) (lines : list string) :
  cues self = OwnList [] ->
  type self = Some "WordBoundary" ->
  _line_groups self = Some lines -> lines <> [] ->
  _all_words_buffer self = first :: rest ->
  fst (get_srt self) = [combined_cue (first :: rest) lines first].
Proof.
  intros Hc Ht Hl Hne Hb.
  rewrite get_srt_fst, (get_srt_grouping _ _ _ _ Ht Hl Hne Hb).
  unfold cues_append, cues_list. rewrite Hc. reflexivity.
Qed.

Lemma last_nth_error (A : Type) (l : list A) (d : A) :
  l <> [] -> nth_error l (List.length l - 1) = Some (last l d).
Proof.
  induction l as [|x l IH]; [congruence|]. intros _.
  destruct l as [|y l]; [reflexivity|].
  replace (List.length (x :: y :: l) - 1) with (S (List.length (y :: l) - 1))
    by (simpl; lia).
  apply IH. discriminate.
Qed.

(** * The claims *)

(** C1. Case B, single cue: on a session that [get_srt] has not touched
    yet ([cues] is still the empty list of the constructor), whose kind is
    WordBoundary, whose reference lines and buffer are not empty, [get_srt]
    hands exactly one cue to the composer, with index 1, the start of the
    first buffered event, the end of the last one, and as content the
    per-line strings joined with a line break, in order. *)
Theorem case_B_single_cue :
  forall (self : SubMaker) (lines : list string),
    cues self = OwnList [] ->
    type self = Some "WordBoundary" ->
    _line_groups self = Some lines -> lines <> [] ->
    _all_words_buffer self <> [] ->
    exists first_event last_event,
      nth_error (_all_words_buffer self) 0 = Some first_event
      /\ nth_error (_all_words_buffer self)
           (List.length (_all_words_buffer self) - 1) = Some last_event
      /\ fst (get_srt self)
         = [ mkSubtitle 1 (start first_event) (end_ last_event)
               (PyStr.join PyStr.LF
                  (all_words_content_of (_all_words_buffer self) lines)) ].
Proof.
  intros self lines Hc Ht Hl Hne Hb.
  destruct (_all_words_buffer self) as [|first rest] eqn:Hbuf; [congruence|].
  exists first, (last (first :: rest) first). repeat split.
  - apply last_nth_error. discriminate.
  - apply (get_srt_first_grouping _ _ _ _ Hc Ht Hl Hne Hbuf).
Qed.

Lemma case_B_single_cue_witness :
  exists first_event last_event,
    nth_error (_all_words_buffer hello_world_foo) 0 = Some first_event
    /\ nth_error (_all_words_buffer hello_world_foo)
         (List.length (_all_words_buffer hello_world_foo) - 1)
       = Some last_event
    /\ fst (get_srt hello_world_foo)
       = [ mkSubtitle 1 (start first_event) (end_ last_event)
             (PyStr.join PyStr.LF
                (all_words_content_of (_all_words_buffer hello_world_foo)
                   ["Hello world"; "foo"])) ].
Proof.
  apply (case_B_single_cue hello_world_foo ["Hello world"; "foo"]).
  - reflexivity.
  - reflexivity.
  - reflexivity.
  - discriminate.
  - vm_compute. discriminate.
Defined.


(** The ways through [feed]. *)
Lemma feed_invalid (self : SubMaker) (msg : TTSChunk) :
  is_boundary_type (msg_type msg) = false ->
  feed self msg = (Raised InvalidEventKind, self).
Proof. intros H. unfold feed. now rewrite H. Qed.

Lemma feed_mixed (self : SubMaker) (msg : TTSChunk) (t : string) :
  is_boundary_type (msg_type msg) = true ->
  type self = Some t -> t <> msg_type msg ->
  feed self msg = (Raised (MixedEventKind t (msg_type msg)), self).
Proof.
  intros Hb Ht Hne. unfold feed. rewrite Hb, Ht. cbn [negb].
  apply String.eqb_neq in Hne. now rewrite Hne.
Qed.

Lemma feed_first (self : SubMaker) (msg : TTSChunk) :
  is_boundary_type (msg_type msg) = true ->
  type self = None ->
  feed self msg = append_subtitle (set_type self (Some (msg_type msg))) msg.
Proof. intros Hb Ht. unfold feed. now rewrite Hb, Ht. Qed.

Lemma feed_same (self : SubMaker) (msg : TTSChunk) :
  is_boundary_type (msg_type msg) = true ->
  type self = Some (msg_type msg) ->
  feed self msg = append_subtitle self msg.
Proof.
  intros Hb Ht. unfold feed. rewrite Hb, Ht. cbn [negb].
  now rewrite String.eqb_refl.
Qed.

Lemma ticks_fit_small (msg : TTSChunk) :
  (- 2 ^ 53 < msg_offset msg < 2 ^ 53)%Z ->
  (- 2 ^ 53 < msg_offset msg + msg_duration msg < 2 ^ 53)%Z ->
  ticks_fit msg = true.
Proof.
  intros H1 H2. unfold ticks_fit.
  now rewrite !timedelta_fits_small.
Qed.

(** C5, as the code has it.  [feed] raises the first [ValueError]
    (InvalidEventKind) exactly when the event's type is neither
    "WordBoundary" nor "SentenceBoundary"; with a valid type it raises the
    second one (MixedEventKind) when a kind is recorded and differs; after
    either of the two the object is as it was.  Otherwise the call
    returns, having recorded the kind and appended exactly one converted
    event to the buffer, when [timedelta] can hold the offset and the
    offset plus duration, which it can for all tick counts below 2^53;
    when it cannot, the call raises [OverflowError] and appends nothing. *)
Theorem feed_error_behaviour :
  forall (self : SubMaker) (msg : TTSChunk),
    (fst (feed self msg) = Raised InvalidEventKind <-> ~ recognized msg)
    /\ (forall t, recognized msg -> type self = Some t -> t <> msg_type msg ->
          fst (feed self msg) = Raised (MixedEventKind t (msg_type msg)))
    /\ (forall e, fst (feed self msg) = Raised e ->
          e = InvalidEventKind
          \/ (exists t, e = MixedEventKind t (msg_type msg))
          \/ e = OverflowError)
    /\ (forall e, fst (feed self msg) = Raised e -> e <> OverflowError ->
          snd (feed self msg) = self)
    /\ (fst (feed self msg) = Raised OverflowError <->
        recognized msg
        /\ (type self = None \/ type self = Some (msg_type msg))
        /\ ticks_fit msg = false)
    /\ (fst (feed self msg) = Raised OverflowError ->
          _all_words_buffer (snd (feed self msg)) = _all_words_buffer self
          /\ cues (snd (feed self msg)) = cues self
          /\ _line_groups (snd (feed self msg)) = _line_groups self)
    /\ (recognized msg -> type self = None -> ticks_fit msg = true ->
          fst (feed self msg) = Returned
          /\ type (snd (feed self msg)) = Some (msg_type msg))
    /\ (recognized msg -> type self = Some (msg_type msg) ->
        ticks_fit msg = true ->
          fst (feed self msg) = Returned)
    /\ ((- 2 ^ 53 < msg_offset msg < 2 ^ 53)%Z ->
        (- 2 ^ 53 < msg_offset msg + msg_duration msg < 2 ^ 53)%Z ->
          ticks_fit msg = true)
    /\ (fst (feed self msg) = Returned ->
          _all_words_buffer (snd (feed self msg))
          = _all_words_buffer self
            ++ [ mkSubtitle (List.length (_all_words_buffer self) + 1)
                   (timedelta_microseconds_div10 (msg_offset msg))
                   (timedelta_microseconds_div10
                      (msg_offset msg + msg_duration msg)%Z)
                   (msg_text msg) ]
          /\ type (snd (feed self msg)) = Some (msg_type msg)
          /\ cues (snd (feed self msg)) = cues self
          /\ _line_groups (snd (feed self msg)) = _line_groups self).
Proof.
  intros self msg.
  assert (Hv : recognized msg <-> is_boundary_type (msg_type msg) = true)
    by (symmetry; apply is_boundary_type_spec).
  pose proof (ticks_fit_small msg) as Hsmall.
  destruct (is_boundary_type (msg_type msg)) eqn:Hb.
  - assert (Hval : recognized msg) by now apply Hv.
    destruct (type self) as [t|] eqn:Ht.
    + destruct (String.eqb_spec t (msg_type msg)) as [Heq|Hne].
      * rewrite (feed_same _ _ Hb) by congruence. unfold append_subtitle.
        destruct (ticks_fit msg) eqn:Hfit; cbn [fst snd].
        -- split; [split; [discriminate | intros H; now elim H]|].
           split; [intros t' _ Ht' Hne; congruence|].
           split; [discriminate|].
           split; [discriminate|].
           split; [split; [discriminate | intros (_ & _ & H); discriminate]|].
           split; [discriminate|].
           split; [discriminate|].
           split; [reflexivity|].
           split; [exact Hsmall|].
           intros _. cbn. rewrite Ht, Heq. auto.
        -- split; [split; [discriminate | intros H; now elim H]|].
           split; [intros t' _ Ht' Hne; congruence|].
           split; [intros e H; inversion H; auto|].
           split; [intros e H He; inversion H; congruence|].
           split; [split; [intros _; rewrite Heq; auto | reflexivity]|].
           split; [auto|].
           split; [discriminate|].
           split; [intros _ _ H; discriminate|].
           split; [exact Hsmall|].
           discriminate.
      * rewrite (feed_mixed _ _ _ Hb Ht Hne). cbn [fst snd].
        split; [split; [discriminate | intros H; now elim H]|].
        split; [intros t' _ Ht' _; congruence|].
        split; [intros e H; inversion H; eauto|].
        split; [reflexivity|].
        split; [split; [discriminate
                       | intros (_ & [H|H] & _); congruence]|].
        split; [discriminate|].
        split; [discriminate|].
        split; [intros _ Ht'; congruence|].
        split; [exact Hsmall|].
        discriminate.
    + rewrite (feed_first _ _ Hb Ht). unfold append_subtitle.
      destruct (ticks_fit msg) eqn:Hfit; cbn [fst snd].
      * split; [split; [discriminate | intros H; now elim H]|].
        split; [discriminate|].
        split; [discriminate|].
        split; [discriminate|].
        split; [split; [discriminate | intros (_ & _ & H); discriminate]|].
        split; [discriminate|].
        split; [intros _ _ _; split; reflexivity|].
        split; [reflexivity|].
        split; [exact Hsmall|].
        intros _. cbn. auto.
      * split; [split; [discriminate | intros H; now elim H]|].
        split; [discriminate|].
        split; [intros e H; inversion H; auto|].
        split; [intros e H He; inversion H; congruence|].
        split; [split; [auto | reflexivity]|].
        split; [intros _; cbn; auto|].
        split; [intros _ _ H; discriminate|].
        split; [discriminate|].
        split; [exact Hsmall|].
        discriminate.
  - assert (Hnv : ~ recognized msg)
      by (intros H; apply Hv in H; discriminate H).
    rewrite (feed_invalid _ _ Hb). cbn [fst snd].
    split; [split; [intros _; exact Hnv | reflexivity]|].
    split; [intros t H; now elim Hnv|].
    split; [intros e H; inversion H; auto|].
    split; [reflexivity|].
    split; [split; [discriminate | intros (H & _); now elim Hnv]|].
    split; [discriminate|].
    split; [intros H; now elim Hnv|].
    split; [intros H; now elim Hnv|].
    split; [exact Hsmall|].
    discriminate.
Qed.

(** C5, as the claim has it, fails: the first event of a session, of a
    valid kind, with an offset of 10^21 ticks does not succeed; [feed]
    records the kind and [timedelta] then raises [OverflowError]. *)
Lemma first_valid_event_can_overflow :
  exists self',
    feed (__init__ None) (mkTTSChunk "WordBoundary" "a" (10 ^ 21) 0)
    = (Raised OverflowError, self')
    /\ type self' = Some "WordBoundary"
    /\ _all_words_buffer self' = [].
Proof. eexists. split; [vm_compute; reflexivity|]. split; reflexivity. Qed.


(** The starvation scenario of the spec: the line "xyz unmatched text"
    takes "Hello" and "world", the line after it gets nothing. *)
Example starvation_scenario :
  let buffer := [ mkSubtitle 1 0 10 "Hello"; mkSubtitle 2 10 20 "world" ]%Z in
  collect_line buffer "xyz unmatched text" 0
  = (2, ["Hello"; "world"], "Hello world")
  /\ all_words_content_of buffer ["xyz unmatched text"; "next line"]
     = ["Hello world"; ""].
Proof. split; reflexivity. Qed.

(** C9. Word conservation in Case B: the content of the single cue is the
    buffered words, each once and in feed order, cut into non-empty groups:
    the words of a group are joined by one space, the groups by one line
    break, and line breaks only may follow the last word. *)
Theorem case_B_word_conservation :
  forall (self : SubMaker) (lines : list string),
    cues self = OwnList [] ->
    type self = Some "WordBoundary" ->
    _line_groups self = Some lines -> lines <> [] ->
    _all_words_buffer self <> [] ->
    exists (c : Subtitle) (groups : list (list string)) (k : nat),
      fst (get_srt self) = [c]
      /\ List.concat groups = map content (_all_words_buffer self)
      /\ Forall (fun g => g <> []) groups
      /\ content c
         = (PyStr.join PyStr.LF (map (PyStr.join " ") groups)
            ++ line_breaks k)%string.
Proof.
  intros self lines Hc Ht Hl Hne Hb.
  destruct (_all_words_buffer self) as [|first rest] eqn:Hbuf; [congruence|].
  destruct (all_words_content_of_groups (first :: rest) lines)
    as (groups & k & Hawc & Hcat & Hgne).
  exists (combined_cue (first :: rest) lines first), groups, k.
  split; [apply (get_srt_first_grouping _ _ _ _ Hc Ht Hl Hne Hbuf)|].
  split; [exact Hcat|]. split; [exact Hgne|].
  unfold combined_cue. cbn [content]. rewrite Hawc.
  apply join_trailing_empty.
  destruct groups; [discriminate | discriminate].
Qed.

Lemma case_B_word_conservation_witness :
  exists (c : Subtitle) (groups : list (list string)) (k : nat),
    fst (get_srt hello_world_foo) = [c]
    /\ List.concat groups = map content (_all_words_buffer hello_world_foo)
    /\ Forall (fun g => g <> []) groups
    /\ content c
       = (PyStr.join PyStr.LF (map (PyStr.join " ") groups)
          ++ line_breaks k)%string.
Proof.
  apply (case_B_word_conservation hello_world_foo ["Hello world"; "foo"]).
  - reflexivity.
  - reflexivity.
  - reflexivity.
  - discriminate.
  - vm_compute. discriminate.
Defined.

Lemma lines_loop_length (buffer : list Subtitle) (lines : list string) :
  forall word_index all_words_content,
    List.length (snd (lines_loop buffer lines word_index all_words_content))
    = List.length all_words_content + List.length lines.
Proof.
  induction lines as [|line_text lines IH]; intros i awc; simpl.
  - lia.
  - destruct (collect_line buffer line_text i) as [[j lw] acc].
    rewrite IH, length_app. simpl. lia.
Qed.

(** C10. Starved lines leave blank lines: in Case B, when the lines
    [lines1] have read the buffer to its end, every later reference line
    reads no word and still adds an empty string to the list, so the
    content of the single cue is that of [lines1] followed by one line
    break for each later line. *)
Theorem starved_lines_leave_blank_lines :
  forall (self : SubMaker) (lines1 lines2 : list string),
    cues self = OwnList [] ->
    type self = Some "WordBoundary" ->
    _line_groups self = Some (lines1 ++ lines2) ->
    _all_words_buffer self <> [] ->
    fst (lines_loop (_all_words_buffer self) lines1 0 [])
    = List.length (_all_words_buffer self) ->
    let buffer := _all_words_buffer self in
    Forall (fun line_text =>
              collect_line buffer line_text (List.length buffer)
              = (List.length buffer, [], "")) lines2
    /\ all_words_content_of buffer (lines1 ++ lines2)
       = all_words_content_of buffer lines1
         ++ repeat "" (List.length lines2)
    /\ exists c,
         fst (get_srt self) = [c]
         /\ content c
            = (PyStr.join PyStr.LF (all_words_content_of buffer lines1)
               ++ line_breaks (List.length lines2))%string.
Proof.
  intros self lines1 lines2 Hc Ht Hl Hb Hend buffer. subst buffer.
  destruct (_all_words_buffer self) as [|first rest] eqn:Hbuf; [congruence|].
  set (buffer := first :: rest) in *.
  assert (Hne1 : lines1 <> []).
  { intros ->. simpl in Hend. discriminate. }
  assert (Hawc1 : all_words_content_of buffer lines1
                  = snd (lines_loop buffer lines1 0 [])).
  { rewrite all_words_content_of_leftover.
    rewrite Hend, skipn_all. now rewrite app_nil_r. }
  assert (Hawc : all_words_content_of buffer (lines1 ++ lines2)
                 = all_words_content_of buffer lines1
                   ++ repeat "" (List.length lines2)).
  { rewrite Hawc1, all_words_content_of_leftover, lines_loop_app.
    rewrite Hend.
    rewrite lines_loop_exhausted by lia. cbn [fst snd].
    rewrite skipn_all. now rewrite app_nil_r. }
  split; [|split; [exact Hawc|]].
  - apply Forall_forall. intros line_text _.
    apply collect_line_exhausted. lia.
  - exists (combined_cue buffer (lines1 ++ lines2) first).
    split.
    + apply (get_srt_first_grouping _ _ _ _ Hc Ht Hl); [|exact Hbuf].
      destruct lines1; [congruence | discriminate].
    + unfold combined_cue. cbn [content]. rewrite Hawc.
      apply join_trailing_empty.
      rewrite Hawc1. intros Hnil.
      apply (f_equal (@List.length string)) in Hnil.
      rewrite lines_loop_length in Hnil.
      destruct lines1; [congruence | discriminate].
Qed.

Lemma starved_lines_leave_blank_lines_witness :
  let buffer := _all_words_buffer hello_then_starved in
  Forall (fun line_text =>
            collect_line buffer line_text (List.length buffer)
            = (List.length buffer, [], "")) ["second"; "third"]
  /\ all_words_content_of buffer (["Hello"] ++ ["second"; "third"])
     = all_words_content_of buffer ["Hello"] ++ repeat "" 2
  /\ exists c,
       fst (get_srt hello_then_starved) = [c]
       /\ content c
          = (PyStr.join PyStr.LF (all_words_content_of buffer ["Hello"])
             ++ line_breaks 2)%string.
Proof.
  apply (starved_lines_leave_blank_lines hello_then_starved
           ["Hello"] ["second"; "third"]).
  - reflexivity.
  - reflexivity.
  - reflexivity.
  - vm_compute. discriminate.
  - reflexivity.
Defined.

Example blank_lines_example :
  map content (fst (get_srt hello_then_starved))
  = [ ("Hello" ++ PyStr.LF ++ PyStr.LF)%string ].
Proof. reflexivity. Qed.

(** ** Calling [get_srt] again *)

(** Without line grouping a second call returns what the first did. *)
Lemma get_srt_identity_again (self : SubMaker) :
  groups_by_lines self = false ->
  get_srt (snd (get_srt self)) = get_srt self.
Proof.
  intros H. rewrite (get_srt_identity self H). cbn [snd].
  rewrite get_srt_identity by exact H. reflexivity.
Qed.

(** With line grouping each call appends the cue once more to the list
    [cues] names. *)
Lemma get_srt_grouping_own (self : SubMaker) (l : list Subtitle) :
  cues self = OwnList l ->
  groups_by_lines self = true ->
  exists c,
    fst (get_srt self) = l ++ [c]
    /\ fst (get_srt (snd (get_srt self))) = (l ++ [c]) ++ [c].
Proof.
  intros Hc Hg.
  pose proof (proj1 (groups_by_lines_spec self) Hg)
    as ((line & lines & Hl) & Ht & Hb).
  destruct (_all_words_buffer self) as [|first rest] eqn:Hbuf; [congruence|].
  exists (combined_cue (first :: rest) (line :: lines) first).
  assert (Hne : line :: lines <> []) by discriminate.
  pose proof (get_srt_grouping _ _ _ _ Ht Hl Hne Hbuf) as Hs.
  assert (Hs' : snd (get_srt self)
                = set_cues self
                    (OwnList (l ++ [combined_cue (first :: rest)
                                      (line :: lines) first]))).
  { rewrite Hs. unfold cues_append. now rewrite Hc. }
  split.
  - rewrite get_srt_fst, Hs'. reflexivity.
  - rewrite (get_srt_fst (snd (get_srt self))), Hs'.
    rewrite (get_srt_grouping _ first rest (line :: lines)); auto.
Qed.

(** C3. Repeated [get_srt]: on the session of the worked scenario the
    first call hands one cue to the composer and the second call hands
    two, the same cue twice; the two results differ. *)
Theorem second_get_srt_repeats_the_cue :
  exists c,
    fst (get_srt hello_world_foo) = [c]
    /\ fst (get_srt (snd (get_srt hello_world_foo))) = [c; c]
    /\ fst (__str__ (snd (__str__ hello_world_foo)))
       <> fst (__str__ hello_world_foo).
Proof.
  eexists. split; [|split].
  - vm_compute. reflexivity.
  - vm_compute. reflexivity.
  - vm_compute. discriminate.
Qed.

(** A [get_srt] before the first word binds [cues] to the buffer; the cue
    of a later line grouping is then appended to the buffer itself. *)
Example get_srt_before_feed :
  let early := snd (get_srt (__init__ (Some "a b"))) in
  let fed :=
    snd (feed_all early
           [ mkTTSChunk "WordBoundary" "a" 0 10;
             mkTTSChunk "WordBoundary" "b" 10 10 ]%Z) in
  map content (fst (get_srt fed)) = ["a"; "b"; "a b"]
  /\ map content (_all_words_buffer (snd (get_srt fed))) = ["a"; "b"; "a b"].
Proof. split; reflexivity. Qed.

(** ** Sessions *)

Lemma groups_by_lines_fields (self self' : SubMaker) :
  _line_groups self' = _line_groups self ->
  type self' = type self ->
  (_all_words_buffer self <> [] -> _all_words_buffer self' <> []) ->
  groups_by_lines self = true -> groups_by_lines self' = true.
Proof.
  intros Hl Ht Hb Hg. apply groups_by_lines_spec.
  apply groups_by_lines_spec in Hg. destruct Hg as (Hl' & Ht' & Hb').
  rewrite Hl, Ht. auto.
Qed.

(** Once [get_srt] groups by lines it does so for good. *)
Lemma groups_by_lines_get_srt (self : SubMaker) :
  groups_by_lines self = true ->
  groups_by_lines (snd (get_srt self)) = true.
Proof.
  intros Hg.
  pose proof (proj1 (groups_by_lines_spec self) Hg)
    as ((line & lines & Hl) & Ht & Hb).
  destruct (_all_words_buffer self) as [|first rest] eqn:Hbuf; [congruence|].
  rewrite (get_srt_grouping _ first rest (line :: lines));
    auto; [|discriminate].
  apply (groups_by_lines_fields self); auto;
    unfold cues_append; destruct (cues self); simpl; auto.
  intros _. destruct (_all_words_buffer self); discriminate.
Qed.

(** In a session the buffer holds the cues of the events fed, numbered
    from 1, unless [get_srt] groups by lines, which takes an event fed. *)
Lemma session_buffer (text : option string) (msgs : list TTSChunk)
    (self : SubMaker) :
  session text msgs self ->
  _all_words_buffer self = cues_of_events 1 msgs
  \/ (groups_by_lines self = true /\ msgs <> []).
Proof.
  induction 1 as [|msgs self msg self' Hs IH Hfeed
                  |msgs self msg e self' Hs IH Hfeed
                  |msgs self Hs IH].
  - left. reflexivity.
  - apply feed_returned in Hfeed.
    destruct Hfeed as (_ & Hty & _ & Ht & Hl & Hbuf).
    destruct IH as [IH|[IH _]].
    + left. rewrite Hbuf, IH, cues_of_events_app.
      unfold subtitle_of. rewrite IH, cues_of_events_length.
      cbn [cues_of_events]. unfold cue_of_event. do 3 f_equal. lia.
    + right. split; [|now destruct msgs].
      apply (groups_by_lines_fields self); auto.
      * apply groups_by_lines_spec in IH. destruct IH as (_ & Ht' & _).
        destruct Hty as [Hty|Hty]; congruence.
      * intros _. rewrite Hbuf.
        destruct (_all_words_buffer self); discriminate.
  - apply feed_raised in Hfeed.
    destruct Hfeed as (_ & Hl & Hbuf & Hself).
    destruct IH as [IH|[IH Hne]]; [left; congruence|].
    right. split; [|exact Hne].
    destruct Hself as [->|(_ & Hnone & _)]; [exact IH|].
    apply groups_by_lines_spec in IH. destruct IH as (_ & Ht & _).
    congruence.
  - destruct (groups_by_lines self) eqn:Hg.
    + right. split; [now apply groups_by_lines_get_srt|].
      destruct IH as [IH|[_ Hne]]; [|exact Hne].
      apply groups_by_lines_spec in Hg. destruct Hg as (_ & _ & Hb).
      rewrite IH in Hb. now destruct msgs.
    + rewrite (get_srt_identity self Hg). cbn [snd].
      destruct IH as [IH|[IH _]]; [left; exact IH | congruence].
Qed.

(** C4. Case A, identity mapping: in a session fed with N events, if
    there are no reference lines, or the kind is SentenceBoundary, or the
    buffer is empty, [get_srt] hands N cues to the composer, in feed order;
    the i-th has index i (from 1), the text of the i-th event, its offset
    as start and its offset plus duration as end, both converted. *)
Theorem case_A_identity_mapping :
  forall (text : option string) (msgs : list TTSChunk) (self : SubMaker),
    session text msgs self ->
    lines_truthy (_line_groups self) = false
    \/ type self = Some "SentenceBoundary"
    \/ _all_words_buffer self = [] ->
    List.length (fst (get_srt self)) = List.length msgs
    /\ forall i msg,
         nth_error msgs i = Some msg ->
         nth_error (fst (get_srt self)) i
         = Some (mkSubtitle (i + 1)
                   (timedelta_microseconds_div10 (msg_offset msg))
                   (timedelta_microseconds_div10
                      (msg_offset msg + msg_duration msg)%Z)
                   (msg_text msg)).
Proof.
  intros text msgs self Hs Hcase.
  apply groups_by_lines_false in Hcase.
  rewrite (get_srt_identity self Hcase). cbn [fst].
  destruct (session_buffer _ _ _ Hs) as [Hbuf|[Hg _]]; [|congruence].
  rewrite Hbuf. split.
  - apply cues_of_events_length.
  - intros i msg Hi.
    rewrite (cues_of_events_nth _ 1 i msg Hi).
    unfold cue_of_event. do 2 f_equal. lia.
Qed.

Lemma session_feed_all (text : option string) (msgs : list TTSChunk) :
  forall self0 msgs0 self,
    session text msgs0 self0 ->
    feed_all self0 msgs = (Returned, self) ->
    session text (msgs0 ++ msgs) self.
Proof.
  induction msgs as [|m msgs IH]; intros s0 msgs0 s Hs H; simpl in H.
  - inversion H; subst. now rewrite app_nil_r.
  - destruct (feed s0 m) as [[|e] s1] eqn:Hfeed; [|discriminate].
    replace (msgs0 ++ m :: msgs) with ((msgs0 ++ [m]) ++ msgs)
      by (now rewrite <- app_assoc).
    apply (IH s1); [|exact H].
    now apply (session_feed text msgs0 s0 m s1).
Qed.

Lemma case_A_identity_mapping_witness :
  let self := snd (feed_all (__init__ None) two_sentences) in
  List.length (fst (get_srt self)) = List.length two_sentences
  /\ forall i msg,
       nth_error two_sentences i = Some msg ->
       nth_error (fst (get_srt self)) i
       = Some (mkSubtitle (i + 1)
                 (timedelta_microseconds_div10 (msg_offset msg))
                 (timedelta_microseconds_div10
                    (msg_offset msg + msg_duration msg)%Z)
                 (msg_text msg)).
Proof.
  apply (case_A_identity_mapping None two_sentences).
  - apply (session_feed_all None two_sentences (__init__ None) []).
    + apply session_init.
    + reflexivity.
  - left. reflexivity.
Defined.

(** C7, as the code has it.  The worked scenario gives one cue from 0 s
    to 0.3 s (3,000,000 ticks) with the two lines as content.  In general
    [feed] converts the offset, and the offset plus the duration, to whole
    microseconds through a float; for a tick count below 2^53 in absolute
    value the result is a tenth of the count rounded to the nearest
    integer, ties to even: within half a microsecond of the tick count,
    and equal to it exactly when the count is a multiple of 10. *)
Theorem scenario_and_tick_conversion :
  (exists c,
      fst (get_srt hello_world_foo) = [c]
      /\ index c = 1
      /\ Qeq (total_seconds (start c)) 0
      /\ Qeq (total_seconds (end_ c)) (3 # 10)
      /\ Qeq (total_seconds (end_ c)) (ticks_seconds 3000000)
      /\ content c = ("Hello world" ++ PyStr.LF ++ "foo")%string)
  /\ forall (self : SubMaker) (msg : TTSChunk),
       let c := subtitle_of self msg in
       let stop := (msg_offset msg + msg_duration msg)%Z in
       ((- 2 ^ 53 < msg_offset msg < 2 ^ 53)%Z ->
          start c = round_half_even (msg_offset msg) 10
          /\ (-5 <= 10 * start c - msg_offset msg <= 5)%Z
          /\ (Qeq (total_seconds (start c)) (ticks_seconds (msg_offset msg))
              <-> (msg_offset msg mod 10 = 0)%Z))
       /\ ((- 2 ^ 53 < stop < 2 ^ 53)%Z ->
          end_ c = round_half_even stop 10
          /\ (-5 <= 10 * end_ c - stop <= 5)%Z
          /\ (Qeq (total_seconds (end_ c)) (ticks_seconds stop)
              <-> (stop mod 10 = 0)%Z)).
Proof.
  split.
  - eexists. split; [vm_compute; reflexivity|].
    repeat split.
  - intros self msg c stop. subst c stop. cbn [start end_ subtitle_of].
    split; intros Hrange.
    + split; [now apply timedelta_microseconds_div10_small|].
      split; [now apply timedelta_microseconds_div10_error|].
      now apply ticks_seconds_exact.
    + split; [now apply timedelta_microseconds_div10_small|].
      split; [now apply timedelta_microseconds_div10_error|].
      now apply ticks_seconds_exact.
Qed.

(** C7, as the claim has it, fails: an event at offset 1 tick with a
    duration of 1 tick gets a cue from 0 to 0 microseconds, which is neither
    0.1 nor 0.2 microseconds. *)
Lemma tick_conversion_is_rounded :
  exists c,
    fst (get_srt (snd (feed (__init__ None)
                         (mkTTSChunk "WordBoundary" "a" 1 1))))
    = [c]
    /\ start c = 0%Z
    /\ end_ c = 0%Z
    /\ ~ Qeq (total_seconds (start c)) (ticks_seconds 1)
    /\ ~ Qeq (total_seconds (end_ c)) (ticks_seconds (1 + 1)).
Proof.
  eexists. split; [vm_compute; reflexivity|].
  repeat split; intros H; vm_compute in H; discriminate H.
Qed.

(** ** Order of the cues *)

Lemma Sorted_map_mono (f : Z -> Z) (l : list Z) :
  (forall a b, (a <= b)%Z -> (f a <= f b)%Z) ->
  Sorted Z.le l -> Sorted Z.le (map f l).
Proof.
  intros Hf. induction 1 as [|a l Hs IH Hhd]; simpl; constructor; auto.
  destruct Hhd; simpl; constructor. auto.
Qed.

Lemma last_in (A : Type) (l : list A) (d : A) : In (last (d :: l) d) (d :: l).
Proof.
  revert d. induction l as [|x l IH]; intros d; [left; reflexivity|].
  right. change (last (d :: x :: l) d) with (last (x :: l) d).
  destruct l as [|y l]; [left; reflexivity|].
  change (last (x :: y :: l) d) with (last (y :: l) d).
  specialize (IH x).
  assert (E : forall d', last (y :: l) d' = last (y :: l) x).
  { clear. revert y. induction l as [|z l IH]; intros y d'; [reflexivity|].
    change (last (y :: z :: l) d') with (last (z :: l) d').
    change (last (y :: z :: l) x) with (last (z :: l) x). apply IH. }
  rewrite (E d).
  change (last (x :: y :: l) x) with (last (y :: l) x) in IH. exact IH.
Qed.

Lemma cues_of_events_end_after_start (msgs : list TTSChunk) :
  Forall (fun msg => (0 <= msg_duration msg)%Z) msgs ->
  forall i,
    Forall (fun c => (start c <= end_ c)%Z) (cues_of_events i msgs).
Proof.
  induction 1 as [|m msgs Hm _ IH]; intros i; simpl; constructor; auto.
  simpl. apply timedelta_microseconds_div10_mono. lia.
Qed.

(** The first cue of a run of events starts no later than any of them
    ends, when offsets do not decrease and durations are not negative. *)
Lemma cues_of_events_span (m : TTSChunk) (msgs : list TTSChunk) (i : nat) :
  Forall (fun msg => (0 <= msg_duration msg)%Z) (m :: msgs) ->
  Sorted Z.le (map msg_offset (m :: msgs)) ->
  forall c, In c (cues_of_events i (m :: msgs)) ->
    (timedelta_microseconds_div10 (msg_offset m) <= end_ c)%Z.
Proof.
  intros Hdur Hsorted c Hin.
  apply Sorted_StronglySorted in Hsorted;
    [|intros x y z; apply Z.le_trans].
  assert (Hfrom : forall j l,
             Forall (fun msg => (0 <= msg_duration msg)%Z) l ->
             Forall (Z.le (msg_offset m)) (map msg_offset l) ->
             In c (cues_of_events j l) ->
             (timedelta_microseconds_div10 (msg_offset m) <= end_ c)%Z).
  { intros j l. revert j.
    induction l as [|x l IH]; intros j Hd Hle Hc; simpl in *; [contradiction|].
    inversion Hd; subst. inversion Hle; subst.
    destruct Hc as [<-|Hc]; [|eauto].
    simpl. apply timedelta_microseconds_div10_mono. lia. }
  apply (Hfrom i (m :: msgs) Hdur); [|exact Hin].
  simpl. constructor; [lia|].
  now inversion Hsorted.
Qed.

(** Without line grouping every call returns the buffer. *)
Lemma get_srt_times_identity (n : nat) :
  forall self,
    groups_by_lines self = false ->
    fst (get_srt_times n self) = _all_words_buffer self.
Proof.
  induction n as [|n IH]; intros self Hg; cbn [get_srt_times].
  - now rewrite (get_srt_identity self Hg).
  - rewrite (get_srt_identity self Hg). cbn [snd].
    now rewrite IH.
Qed.

(** With line grouping call [n + 1] returns what [cues] held, followed by
    [n + 1] copies of the combined cue. *)
Lemma get_srt_times_grouping (n : nat) :
  forall self l first rest lines,
    cues self = OwnList l ->
    type self = Some "WordBoundary" ->
    _line_groups self = Some lines -> lines <> [] ->
    _all_words_buffer self = first :: rest ->
    fst (get_srt_times n self)
    = l ++ repeat (combined_cue (first :: rest) lines first) (S n).
Proof.
  induction n as [|n IH]; intros self l first rest lines Hc Ht Hl Hne Hb;
    pose proof (get_srt_grouping _ _ _ _ Ht Hl Hne Hb) as Hs;
    unfold cues_append in Hs; rewrite Hc in Hs; cbn [get_srt_times].
  - rewrite get_srt_fst, Hs. reflexivity.
  - rewrite Hs.
    rewrite (IH _ (l ++ [combined_cue (first :: rest) lines first])
               first rest lines); auto.
    now rewrite <- app_assoc.
Qed.

Lemma Sorted_repeat (x : Z) (n : nat) : Sorted Z.le (repeat x n).
Proof.
  induction n as [|n IH]; simpl; constructor; auto.
  destruct n; simpl; constructor. lia.
Qed.

(** C8. Timing of the cues: when the events are fed with durations that
    are not negative and offsets that do not decrease, every cue that
    [get_srt] then hands to the composer, at its first call and at every
    call after it, starts no later than it ends, and the starts do not
    decrease along the cues. *)
Theorem cue_timing_invariant :
  forall (text : option string) (msgs : list TTSChunk) (self : SubMaker)
         (n : nat),
    feed_all (__init__ text) msgs = (Returned, self) ->
    Forall (fun msg => (0 <= msg_duration msg)%Z) msgs ->
    Sorted Z.le (map msg_offset msgs) ->
    Forall (fun c => (start c <= end_ c)%Z) (fst (get_srt_times n self))
    /\ Sorted Z.le (map start (fst (get_srt_times n self))).
Proof.
  intros text msgs self n Hfeed Hdur Hsorted.
  destruct (feed_all_returned _ _ _ Hfeed) as (Hc & Hl & Hbuf & _).
  simpl in Hbuf, Hc.
  destruct (groups_by_lines self) eqn:Hg.
  - pose proof (proj1 (groups_by_lines_spec self) Hg)
      as ((line & lines & Hlines) & Ht & Hb).
    destruct (_all_words_buffer self) as [|first rest] eqn:Hself;
      [congruence|].
    rewrite (get_srt_times_grouping n self [] first rest (line :: lines));
      auto; [|discriminate].
    rewrite app_nil_l, map_repeat.
    split; [|apply Sorted_repeat].
    apply Forall_forall. intros c Hin. apply repeat_spec in Hin. subst c.
    destruct msgs as [|m msgs]; [discriminate|].
    simpl in Hbuf. inversion Hbuf; subst first rest.
    unfold combined_cue. cbn [start end_ cue_of_event].
    apply (cues_of_events_span m msgs 1 Hdur Hsorted).
    exact (last_in _ (cues_of_events 2 msgs) (cue_of_event 1 m)).
  - rewrite (get_srt_times_identity n self Hg). rewrite Hbuf. split.
    + now apply cues_of_events_end_after_start.
    + rewrite cues_of_events_start, <- map_map.
      apply Sorted_map_mono; [|exact Hsorted].
      apply timedelta_microseconds_div10_mono.
Qed.

Lemma cue_timing_invariant_witness :
  Forall (fun c => (start c <= end_ c)%Z)
    (fst (get_srt_times 1 hello_world_foo))
  /\ Sorted Z.le (map start (fst (get_srt_times 1 hello_world_foo))).
Proof.
  apply (cue_timing_invariant
           (Some ("Hello world" ++ PyStr.LF ++ "foo")%string)
           [ mkTTSChunk "WordBoundary" "Hello" 0 1000000;
             mkTTSChunk "WordBoundary" "world" 1000000 1000000;
             mkTTSChunk "WordBoundary" "foo" 2000000 1000000 ]%Z
           hello_world_foo 1).
  - reflexivity.
  - repeat constructor; simpl; lia.
  - repeat constructor; simpl; lia.
Defined.

(** * Further properties of the code *)

(** ** The reference lines [__init__] keeps *)

Lemma contains_char_nil (a : ascii) :
  PyStr.contains (String a "") "" = false.
Proof. reflexivity. Qed.

Lemma contains_char_cons (a c : ascii) (s : string) :
  PyStr.contains (String a "") (String c s)
  = Ascii.eqb a c || PyStr.contains (String a "") s.
Proof.
  cbn [PyStr.contains String.prefix].
  destruct (ascii_dec a c) as [->|Hne].
  - rewrite Ascii.eqb_refl. now destruct s.
  - apply Ascii.eqb_neq in Hne. now rewrite Hne.
Qed.

Lemma split_nonempty (sep : ascii) (s : string) : PyStr.split sep s <> [].
Proof.
  destruct s as [|c s]; simpl; [discriminate|].
  destruct (Ascii.eqb c sep); [discriminate|].
  destruct (PyStr.split sep s); discriminate.
Qed.

(** No piece of a split holds the separator. *)
Lemma split_pieces_free (sep : ascii) (s : string) :
  Forall (fun piece => PyStr.contains (String sep "") piece = false)
    (PyStr.split sep s).
Proof.
  induction s as [|c s IH]; simpl.
  - repeat constructor.
  - destruct (Ascii.eqb c sep) eqn:Hc.
    + constructor; [reflexivity | exact IH].
    + destruct (PyStr.split sep s) as [|piece pieces] eqn:Hs;
        [exfalso; exact (split_nonempty sep s Hs)|].
      inversion IH; subst. constructor; [|assumption].
      rewrite contains_char_cons, Ascii.eqb_sym, Hc. assumption.
Qed.

Lemma lstrip_free (a : ascii) (s : string) :
  PyStr.contains (String a "") s = false ->
  PyStr.contains (String a "") (PyStr.lstrip s) = false.
Proof.
  induction s as [|c s IH]; intros H; simpl; [reflexivity|].
  destruct (PyStr.isspace c); [|exact H].
  rewrite contains_char_cons in H. apply orb_false_iff in H. now apply IH.
Qed.

Lemma rstrip_free (a : ascii) (s : string) :
  PyStr.contains (String a "") s = false ->
  PyStr.contains (String a "") (PyStr.rstrip s) = false.
Proof.
  induction s as [|c s IH]; intros H; [reflexivity|].
  rewrite contains_char_cons in H. apply orb_false_iff in H.
  destruct H as [Hc Hs]. specialize (IH Hs).
  cbn [PyStr.rstrip].
  destruct (PyStr.rstrip s) as [|d r].
  - destruct (PyStr.isspace c); [reflexivity|].
    rewrite contains_char_cons, Hc. reflexivity.
  - rewrite contains_char_cons, Hc. exact IH.
Qed.

Lemma rstrip_idempotent (s : string) :
  PyStr.rstrip (PyStr.rstrip s) = PyStr.rstrip s.
Proof.
  induction s as [|c s IH]; [reflexivity|].
  cbn [PyStr.rstrip].
  destruct (PyStr.rstrip s) as [|d r] eqn:Hr.
  - destruct (PyStr.isspace c) eqn:Hc; [reflexivity|].
    cbn [PyStr.rstrip]. now rewrite Hc.
  - cbn [PyStr.rstrip] in *. now rewrite IH.
Qed.

(** What [lstrip] leaves is empty or starts with a character that is not
    white space, and [rstrip] keeps such a start. *)
Lemma lstrip_start (s : string) :
  PyStr.lstrip s = ""
  \/ exists c r, PyStr.lstrip s = String c r /\ PyStr.isspace c = false.
Proof.
  induction s as [|c s IH]; simpl; [now left|].
  destruct (PyStr.isspace c) eqn:Hc; [exact IH|].
  right. eauto.
Qed.

Lemma lstrip_strip (s : string) :
  PyStr.lstrip (PyStr.strip s) = PyStr.strip s.
Proof.
  unfold PyStr.strip.
  destruct (lstrip_start s) as [->|(c & r & -> & Hc)]; [reflexivity|].
  cbn [PyStr.rstrip].
  destruct (PyStr.rstrip r); rewrite ?Hc; cbn [PyStr.lstrip];
    now rewrite Hc.
Qed.

Lemma truthy_nonempty (s : string) : PyStr.truthy s = true <-> s <> "".
Proof. destruct s; simpl; split; congruence. Qed.

(** X1. The reference lines of a session: [__init__] keeps, of the lines
    of the original text, those that are not blank, trimmed; so each
    reference line is non-empty, neither starts nor ends with white space
    (stripping it again on either side changes nothing) and holds no line
    break. *)
Theorem init_reference_lines_trimmed :
  forall (text : string) (lines : list string),
    _line_groups (__init__ (Some text)) = Some lines ->
    Forall (fun line =>
              line <> ""
              /\ PyStr.lstrip line = line
              /\ PyStr.rstrip line = line
              /\ PyStr.contains PyStr.LF line = false) lines.
Proof.
  intros text lines H. cbn [_line_groups __init__] in H.
  destruct (PyStr.truthy text); [|discriminate].
  inversion H; subst lines. clear H.
  unfold split_lines. apply Forall_forall. intros line Hin.
  apply in_map_iff in Hin. destruct Hin as (piece & <- & Hin).
  apply filter_In in Hin. destruct Hin as [Hin Htruthy].
  split; [now apply truthy_nonempty|].
  split; [apply lstrip_strip|].
  split; [apply rstrip_idempotent|].
  pose proof (split_pieces_free (ascii_of_nat 10) text) as Hfree.
  rewrite Forall_forall in Hfree.
  unfold PyStr.strip. apply rstrip_free, lstrip_free.
  now apply Hfree.
Qed.

Lemma init_reference_lines_trimmed_witness :
  Forall (fun line =>
            line <> ""
            /\ PyStr.lstrip line = line
            /\ PyStr.rstrip line = line
            /\ PyStr.contains PyStr.LF line = false)
    ["Hello world"; "foo"].
Proof.
  apply (init_reference_lines_trimmed
           ("  Hello world " ++ PyStr.LF ++ "   " ++ PyStr.LF ++ "foo")%string).
  reflexivity.
Defined.

(** A text is blank when all its characters are white space. *)
Lemma split_lines_cons_space (c : ascii) (s : string) :
  PyStr.isspace c = true -> split_lines (String c s) = split_lines s.
Proof.
  intros Hc. unfold split_lines. cbn [PyStr.split].
  destruct (Ascii.eqb c (ascii_of_nat 10)) eqn:Hlf.
  - reflexivity.
  - pose proof (split_nonempty (ascii_of_nat 10) s) as Hne.
    destruct (PyStr.split (ascii_of_nat 10) s) as [|piece pieces];
      [congruence|].
    cbn [filter].
    assert (E : PyStr.strip (String c piece) = PyStr.strip piece)
      by (unfold PyStr.strip; cbn [PyStr.lstrip]; now rewrite Hc).
    rewrite E.
    destruct (PyStr.truthy (PyStr.strip piece)); cbn [map]; now rewrite ?E.
Qed.

Lemma split_lines_cons_word (c : ascii) (s : string) :
  PyStr.isspace c = false -> split_lines (String c s) <> [].
Proof.
  intros Hc. unfold split_lines. cbn [PyStr.split].
  assert (Hlf : Ascii.eqb c (ascii_of_nat 10) = false).
  { destruct (Ascii.eqb_spec c (ascii_of_nat 10)) as [->|]; [|reflexivity].
    discriminate Hc. }
  rewrite Hlf.
  assert (Htruthy : forall piece,
             PyStr.truthy (PyStr.strip (String c piece)) = true).
  { intros piece. unfold PyStr.strip. cbn [PyStr.lstrip]. rewrite Hc.
    cbn [PyStr.rstrip]. destruct (PyStr.rstrip piece); now rewrite ?Hc. }
  destruct (PyStr.split (ascii_of_nat 10) s) as [|piece pieces];
    cbn [filter]; rewrite Htruthy; discriminate.
Qed.

Lemma split_lines_nil_iff (text : string) :
  split_lines text = []
  <-> forallb PyStr.isspace (list_ascii_of_string text) = true.
Proof.
  induction text as [|c s IH].
  - split; reflexivity.
  - cbn [list_ascii_of_string forallb].
    destruct (PyStr.isspace c) eqn:Hc.
    + rewrite (split_lines_cons_space c s Hc). exact IH.
    + split; [|discriminate].
      intros H. now apply split_lines_cons_word in H.
Qed.

(** X2. A session has no reference line to group by exactly when its
    original text is blank: every character of it is white space (line
    breaks included; the empty text is blank). *)
Theorem no_reference_lines_iff_blank :
  forall text : string,
    lines_truthy (_line_groups (__init__ (Some text))) = false
    <-> forallb PyStr.isspace (list_ascii_of_string text) = true.
Proof.
  intros text. rewrite <- split_lines_nil_iff.
  cbn [_line_groups __init__].
  destruct text as [|c s]; [split; reflexivity|].
  cbn [PyStr.truthy lines_truthy].
  destruct (split_lines (String c s)); split; congruence.
Qed.

(** ** What a session keeps *)

Lemma get_srt_keeps (self : SubMaker) :
  type (snd (get_srt self)) = type self
  /\ _line_groups (snd (get_srt self)) = _line_groups self.
Proof.
  unfold get_srt. destruct (groups_by_lines self); [|split; reflexivity].
  cbn [snd]. unfold _group_words_by_lines.
  destruct (_all_words_buffer self) as [|first rest]; [split; reflexivity|].
  destruct (_line_groups self) as [[|line lines]|] eqn:Hl;
    try (split; [reflexivity | now rewrite Hl]).
  unfold cues_append. destruct (cues self); cbn; now rewrite ?Hl.
Qed.

Lemma session_lines (text : option string) (msgs : list TTSChunk)
    (self : SubMaker) :
  session text msgs self ->
  _line_groups self = _line_groups (__init__ text).
Proof.
  induction 1 as [|msgs self msg self' Hs IH Hfeed
                  |msgs self msg e self' Hs IH Hfeed
                  |msgs self Hs IH].
  - reflexivity.
  - apply feed_returned in Hfeed. destruct Hfeed as (_ & _ & _ & _ & Hl & _).
    congruence.
  - apply feed_raised in Hfeed. destruct Hfeed as (_ & Hl & _). congruence.
  - rewrite (proj2 (get_srt_keeps self)). exact IH.
Qed.

(** A kind is recorded by the first event of a valid kind, accepted or
    not ([feed] records it before [timedelta] may raise); every event
    accepted has the kind recorded. *)
Lemma session_type (text : option string) (msgs : list TTSChunk)
    (self : SubMaker) :
  session text msgs self ->
  match type self with
  | None => msgs = []
  | Some t =>
      (t = "WordBoundary" \/ t = "SentenceBoundary")
      /\ Forall (fun msg => msg_type msg = t) msgs
  end.
Proof.
  induction 1 as [|msgs self msg self' Hs IH Hfeed
                  |msgs self msg e self' Hs IH Hfeed
                  |msgs self Hs IH].
  - reflexivity.
  - apply feed_returned in Hfeed.
    destruct Hfeed as (Hb & Hty & _ & Ht & _ & _).
    rewrite Ht. apply is_boundary_type_spec in Hb.
    split; [exact Hb|].
    apply Forall_app. split; [|repeat constructor].
    destruct Hty as [Hty|Hty]; rewrite Hty in IH.
    + subst msgs. constructor.
    + apply IH.
  - apply feed_raised in Hfeed.
    destruct Hfeed as (_ & _ & _ & [->|(_ & Hnone & Hb & Ht)]); [exact IH|].
    rewrite Hnone in IH. subst msgs. rewrite Ht.
    apply is_boundary_type_spec in Hb. split; [exact Hb | constructor].
  - rewrite (proj1 (get_srt_keeps self)). exact IH.
Qed.

Lemma session_empty_buffer (text : option string) (self : SubMaker) :
  session text [] self -> _all_words_buffer self = [].
Proof.
  intros Hs.
  destruct (session_buffer _ _ _ Hs) as [Hbuf|[_ Hne]];
    [exact Hbuf | congruence].
Qed.

(** X3. Kind and lines of a session: whatever the order of the calls,
    the reference lines stay those the constructor computed; as long as
    no kind is recorded no event was accepted; a recorded kind is one of
    the two boundary kinds and it is the type of every event accepted. *)
Theorem session_kind_consistency :
  forall (text : option string) (msgs : list TTSChunk) (self : SubMaker),
    session text msgs self ->
    _line_groups self = _line_groups (__init__ text)
    /\ (type self = None -> msgs = [])
    /\ (forall t, type self = Some t ->
          (t = "WordBoundary" \/ t = "SentenceBoundary")
          /\ Forall (fun msg => msg_type msg = t) msgs).
Proof.
  intros text msgs self Hs.
  pose proof (session_type _ _ _ Hs) as Hk.
  split; [exact (session_lines _ _ _ Hs)|].
  destruct (type self) as [t|].
  - split; [discriminate|].
    intros t' Ht'. inversion Ht'; subst t'. exact Hk.
  - split; [auto|]. intros t Ht. discriminate.
Qed.

Lemma session_kind_consistency_witness :
  _line_groups hello_world_foo
  = _line_groups (__init__ (Some hello_world_foo_text))
  /\ (type hello_world_foo = None -> hello_world_foo_events = [])
  /\ (forall t, type hello_world_foo = Some t ->
        (t = "WordBoundary" \/ t = "SentenceBoundary")
        /\ Forall (fun msg => msg_type msg = t) hello_world_foo_events).
Proof.
  apply (session_kind_consistency
           (Some hello_world_foo_text) hello_world_foo_events
           hello_world_foo).
  apply (session_feed_all (Some hello_world_foo_text) hello_world_foo_events
           (__init__ (Some hello_world_foo_text)) []).
  - apply session_init.
  - reflexivity.
Defined.

(** A session whose first event raised [OverflowError]: the kind is
    recorded, no event is accepted, and an event of the other kind is
    then refused. *)
Example kind_recorded_without_event :
  let self := snd (feed (__init__ None)
                     (mkTTSChunk "WordBoundary" "a" (10 ^ 21) 0)) in
  session None [] self
  /\ type self = Some "WordBoundary"
  /\ fst (feed self (mkTTSChunk "SentenceBoundary" "One." 0 10))
     = Raised (MixedEventKind "WordBoundary" "SentenceBoundary").
Proof.
  split; [|split; vm_compute; reflexivity].
  apply (session_feed_raised None [] (__init__ None)
           (mkTTSChunk "WordBoundary" "a" (10 ^ 21) 0) OverflowError).
  - apply session_init.
  - vm_compute. reflexivity.
Qed.

(** X4. Empty input: a session in which no event was accepted, whether
    none was fed or every [feed] raised, with or without reference lines,
    has an empty buffer, and each call of [get_srt] hands the empty list to
    the composer. *)
Theorem empty_session_no_cues :
  forall (text : option string) (self : SubMaker) (n : nat),
    session text [] self ->
    _all_words_buffer self = [] /\ fst (get_srt_times n self) = [].
Proof.
  intros text self n Hs.
  pose proof (session_empty_buffer _ _ Hs) as Hbuf.
  split; [exact Hbuf|].
  rewrite get_srt_times_identity; [exact Hbuf|].
  apply groups_by_lines_false. auto.
Qed.

Lemma empty_session_no_cues_witness :
  let self :=
    snd (feed (snd (get_srt (__init__ (Some "Hello"))))
           (mkTTSChunk "Bookmark" "Hello" 0 10)) in
  _all_words_buffer self = [] /\ fst (get_srt_times 2 self) = [].
Proof.
  apply (empty_session_no_cues (Some "Hello")).
  apply (session_feed_raised _ [] (snd (get_srt (__init__ (Some "Hello"))))
           (mkTTSChunk "Bookmark" "Hello" 0 10) InvalidEventKind).
  - apply session_get_srt. apply session_init.
  - reflexivity.
Defined.

(** X5. Without reference lines nothing is grouped: when the original
    text is absent or blank, [get_srt] hands to the composer one cue for
    each event accepted, in feed order and numbered from 1, for either
    kind of event and whatever calls came before. *)
Theorem blank_text_identity :
  forall (text : option string) (msgs : list TTSChunk) (self : SubMaker),
    (forall t, text = Some t ->
       forallb PyStr.isspace (list_ascii_of_string t) = true) ->
    session text msgs self ->
    fst (get_srt self) = cues_of_events 1 msgs.
Proof.
  intros text msgs self Hblank Hs.
  assert (Hl : lines_truthy (_line_groups self) = false).
  { rewrite (session_lines _ _ _ Hs). destruct text as [t|]; [|reflexivity].
    specialize (Hblank t eq_refl). apply split_lines_nil_iff in Hblank.
    cbn [_line_groups __init__].
    destruct (PyStr.truthy t); [|reflexivity]. now rewrite Hblank. }
  assert (Hg : groups_by_lines self = false)
    by (apply groups_by_lines_false; auto).
  rewrite (get_srt_identity self Hg). cbn [fst].
  destruct (session_buffer _ _ _ Hs) as [Hbuf|[Hg' _]]; congruence.
Qed.

(** Two words fed to a session whose text is two blank lines. *)
Lemma blank_text_identity_witness :
  let text := Some (" " ++ PyStr.LF ++ "  ")%string in
  let msgs := [ mkTTSChunk "WordBoundary" "Hello" 0 1000000;
                mkTTSChunk "WordBoundary" "world" 1000000 1000000 ]%Z in
  fst (get_srt (snd (feed_all (__init__ text) msgs)))
  = cues_of_events 1 msgs.
Proof.
  apply (blank_text_identity (Some (" " ++ PyStr.LF ++ "  ")%string)).
  - intros t Ht. inversion Ht. reflexivity.
  - apply (session_feed_all (Some (" " ++ PyStr.LF ++ "  ")%string)
             [ mkTTSChunk "WordBoundary" "Hello" 0 1000000;
               mkTTSChunk "WordBoundary" "world" 1000000 1000000 ]%Z
             (__init__ (Some (" " ++ PyStr.LF ++ "  ")%string)) []).
    + apply session_init.
    + reflexivity.
Defined.

(** ** Calls of [get_srt] in a row *)

(** X6. Without line grouping [get_srt] is idempotent: when its guard
    fails, every further call returns the same list and leaves the object
    as the first call left it. *)
Theorem get_srt_idempotent_without_grouping :
  forall (self : SubMaker) (n : nat),
    groups_by_lines self = false ->
    get_srt_times n self = get_srt self.
Proof.
  intros self n Hg. revert self Hg.
  induction n as [|n IH]; intros self Hg; cbn [get_srt_times];
    [reflexivity|].
  rewrite (get_srt_identity self Hg). cbn [snd].
  rewrite IH by exact Hg.
  now rewrite get_srt_identity by exact Hg.
Qed.

Lemma get_srt_idempotent_without_grouping_witness :
  get_srt_times 3 (snd (feed_all (__init__ None) two_sentences))
  = get_srt (snd (feed_all (__init__ None) two_sentences)).
Proof.
  apply (get_srt_idempotent_without_grouping
           (snd (feed_all (__init__ None) two_sentences)) 3).
  reflexivity.
Defined.

(** X7. With line grouping each call adds a copy: on a session that
    [get_srt] has not touched yet, with kind WordBoundary, reference lines
    and a buffer, call number [n + 1] hands to the composer [n + 1] copies
    of the cue the first call returned. *)
Theorem grouping_call_n_gives_n_copies :
  forall (self : SubMaker) (lines : list string),
    cues self = OwnList [] ->
    type self = Some "WordBoundary" ->
    _line_groups self = Some lines -> lines <> [] ->
    _all_words_buffer self <> [] ->
    exists c,
      fst (get_srt self) = [c]
      /\ forall n, fst (get_srt_times n self) = repeat c (S n).
Proof.
  intros self lines Hc Ht Hl Hne Hb.
  destruct (_all_words_buffer self) as [|first rest] eqn:Hbuf; [congruence|].
  exists (combined_cue (first :: rest) lines first). split.
  - apply (get_srt_first_grouping _ _ _ _ Hc Ht Hl Hne Hbuf).
  - intros n.
    apply (get_srt_times_grouping n self [] first rest lines Hc Ht Hl Hne Hbuf).
Qed.

Lemma grouping_call_n_gives_n_copies_witness :
  exists c,
    fst (get_srt hello_world_foo) = [c]
    /\ forall n, fst (get_srt_times n hello_world_foo) = repeat c (S n).
Proof.
  apply (grouping_call_n_gives_n_copies hello_world_foo
           ["Hello world"; "foo"]).
  - reflexivity.
  - reflexivity.
  - reflexivity.
  - discriminate.
  - vm_compute. discriminate.
Defined.



(** ** Lines that match the words *)

Lemma string_length_app (a b : string) :
  String.length (a ++ b) = String.length a + String.length b.
Proof. induction a as [|c a IH]; simpl; [reflexivity | now rewrite IH]. Qed.

Lemma lower_length (s : string) :
  String.length (PyStr.lower s) = String.length s.
Proof. induction s as [|c s IH]; simpl; [reflexivity | now rewrite IH]. Qed.

Lemma accumulate_grows (acc w : string) :
  PyStr.truthy acc = true ->
  PyStr.truthy (accumulate acc w) = true
  /\ String.length acc < String.length (accumulate acc w).
Proof.
  intros H. unfold accumulate. rewrite H, string_length_app.
  destruct acc as [|c acc]; [discriminate|]. simpl. split; [reflexivity|lia].
Qed.

Lemma fold_accumulate_grows (ws : list string) :
  forall acc,
    PyStr.truthy acc = true ->
    PyStr.truthy (fold_left accumulate ws acc) = true
    /\ (ws <> [] ->
        String.length acc < String.length (fold_left accumulate ws acc)).
Proof.
  induction ws as [|w ws IH]; intros acc H; simpl.
  - split; [exact H | congruence].
  - destruct (accumulate_grows acc w H) as [Ht Hlen].
    destruct (IH _ Ht) as [Ht' Hlen']. split; [exact Ht'|].
    intros _. destruct ws as [|w' ws]; [exact Hlen|].
    specialize (Hlen' ltac:(discriminate)). lia.
Qed.

Lemma join_cons_accumulate (a w : string) (ws : list string) :
  PyStr.join " " ((a ++ " " ++ w)%string :: ws)
  = (a ++ " " ++ PyStr.join " " (w :: ws))%string.
Proof.
  destruct ws as [|x ws]; [reflexivity|].
  rewrite !join_cons2. now rewrite !append_assoc.
Qed.

(** From a first word that is not empty on, the accumulated text is the
    words joined by spaces. *)
Lemma fold_accumulate_join (ws : list string) :
  forall a,
    PyStr.truthy a = true ->
    fold_left accumulate ws a = PyStr.join " " (a :: ws).
Proof.
  induction ws as [|w ws IH]; intros a H; simpl fold_left; [reflexivity|].
  destruct (accumulate_grows a w H) as [Ht _].
  rewrite (IH _ Ht). unfold accumulate. rewrite H.
  rewrite join_cons_accumulate.
  destruct ws; reflexivity.
Qed.

Lemma accumulated_join (g : list string) :
  PyStr.truthy (hd "" g) = true -> accumulated g = PyStr.join " " g.
Proof.
  destruct g as [|w ws]; [discriminate|]. simpl hd. intros H.
  unfold accumulated. simpl fold_left.
  change (accumulate "" w) with w. now apply fold_accumulate_join.
Qed.

Lemma accumulated_prefix_shorter (p r : list string) :
  PyStr.truthy (hd "" p) = true -> r <> [] ->
  String.length (accumulated p) < String.length (accumulated (p ++ r)).
Proof.
  intros Hp Hr. unfold accumulated. rewrite fold_left_app.
  apply fold_accumulate_grows; [|exact Hr].
  destruct p as [|w ws]; [discriminate|]. simpl hd in Hp. simpl fold_left.
  change (accumulate "" w) with w. now apply fold_accumulate_grows.
Qed.

Lemma stop_condition_length (acc line_text : string) :
  stop_condition acc line_text = true ->
  String.length line_text <= String.length acc.
Proof.
  unfold stop_condition. intros H. apply orb_true_iff in H.
  destruct H as [H|H].
  - apply String.eqb_eq in H.
    apply (f_equal String.length) in H. rewrite !lower_length in H. lia.
  - apply andb_true_iff in H. destruct H as [H _].
    now apply Nat.leb_le in H.
Qed.

Lemma stop_condition_exact (acc line_text : string) :
  PyStr.lower acc = PyStr.lower line_text ->
  stop_condition acc line_text = true.
Proof.
  intros H. unfold stop_condition. rewrite H, String.eqb_refl. reflexivity.
Qed.

Lemma words_between_firstn (buffer : list Subtitle) (i j : nat) :
  words_between buffer i j = firstn (j - i) (map content (skipn i buffer)).
Proof. unfold words_between. now rewrite firstn_map. Qed.

(** A line that is, case apart, the next words joined by spaces takes
    exactly these words. *)
Lemma collect_line_group (buffer : list Subtitle) (line_text : string)
    (i : nat) (g rest : list string) :
  map content (skipn i buffer) = g ++ rest ->
  PyStr.truthy (hd "" g) = true ->
  PyStr.lower (PyStr.join " " g) = PyStr.lower line_text ->
  collect_line buffer line_text i
  = (i + List.length g, g, PyStr.join " " g).
Proof.
  intros Hwords Hhd Hline.
  assert (Hg : 0 < List.length g) by (destruct g; [discriminate | simpl; lia]).
  assert (Hlen : i + List.length g <= List.length buffer).
  { apply (f_equal (@List.length string)) in Hwords.
    rewrite length_map, length_skipn, length_app in Hwords. lia. }
  assert (Hprefix : forall k, i <= k <= i + List.length g ->
             words_between buffer i k = firstn (k - i) g).
  { intros k Hk. rewrite words_between_firstn, Hwords, firstn_app.
    replace (k - i - List.length g) with 0 by lia.
    simpl. now rewrite app_nil_r. }
  assert (Hall : words_between buffer i (i + List.length g) = g).
  { rewrite Hprefix by lia.
    replace (i + List.length g - i) with (List.length g) by lia.
    apply firstn_all. }
  destruct (collect_line buffer line_text i) as [[j lw] acc] eqn:Hrun.
  apply collect_line_spec in Hrun.
  destruct Hrun as (Hlw & Hacc & Hlt & _ & Hend & Hbefore).
  specialize (Hlt ltac:(lia)).
  assert (Hj : j = i + List.length g).
  { destruct (Nat.lt_trichotomy j (i + List.length g)) as [Hlow|[Heq|Hhigh]];
      [|exact Heq|].
    - destruct Hend as [Hstop|Hend]; [|lia].
      apply stop_condition_length in Hstop.
      rewrite Hacc, (Hprefix j) in Hstop by lia.
      pose proof (accumulated_prefix_shorter
                    (firstn (j - i) g) (skipn (j - i) g)) as Hshort.
      rewrite firstn_skipn in Hshort.
      assert (Hhd' : PyStr.truthy (hd "" (firstn (j - i) g)) = true).
      { destruct g as [|w ws]; [discriminate|].
        replace (j - i) with (S (j - i - 1)) by lia. exact Hhd. }
      assert (Hrest : skipn (j - i) g <> []).
      { intros Hnil. apply (f_equal (@List.length string)) in Hnil.
        rewrite length_skipn in Hnil. simpl in Hnil. lia. }
      specialize (Hshort Hhd' Hrest).
      rewrite (accumulated_join g Hhd) in Hshort.
      apply (f_equal String.length) in Hline.
      rewrite !lower_length in Hline. lia.
    - specialize (Hbefore (i + List.length g) ltac:(lia)).
      rewrite Hall, (accumulated_join g Hhd) in Hbefore.
      rewrite (stop_condition_exact _ _ Hline) in Hbefore. discriminate. }
  subst j. rewrite Hall in Hlw, Hacc.
  rewrite (accumulated_join g Hhd) in Hacc. now subst.
Qed.

Lemma lines_loop_exact (buffer : list Subtitle) (lines : list string)
    (groups : list (list string)) :
  Forall2 (fun line_text g =>
             PyStr.truthy (hd "" g) = true
             /\ PyStr.lower (PyStr.join " " g) = PyStr.lower line_text)
    lines groups ->
  forall i all_words_content rest,
    map content (skipn i buffer) = List.concat groups ++ rest ->
    lines_loop buffer lines i all_words_content
    = (i + List.length (List.concat groups),
       all_words_content ++ map (PyStr.join " ") groups).
Proof.
  induction 1 as [|line_text g lines groups [Hhd Hline] _ IH];
    intros i awc rest Hwords.
  - simpl. now rewrite Nat.add_0_r, app_nil_r.
  - simpl List.concat in *. rewrite <- app_assoc in Hwords.
    cbn [lines_loop].
    rewrite (collect_line_group _ _ _ _ _ Hwords Hhd Hline).
    rewrite (IH (i + List.length g) _ rest).
    + rewrite length_app, <- app_assoc. simpl. f_equal. lia.
    + rewrite Nat.add_comm, <- skipn_skipn, <- skipn_map, Hwords.
      rewrite skipn_app, skipn_all, Nat.sub_diag. reflexivity.
Qed.

(** X9. Lines that match are reconstructed: in Case B, when the buffered
    words are, in order, the words of one group for each reference line
    and then some words left over, each group starts with a word that is
    not empty, and each line is, case apart, its group joined by single
    spaces, then the content of the single cue is the groups, each joined
    by spaces, then the words left over, one to a line. *)
Theorem matching_lines_are_reconstructed :
  forall (self : SubMaker) (lines : list string)
         (groups : list (list string)) (leftover : list string),
    cues self = OwnList [] ->
    type self = Some "WordBoundary" ->
    _line_groups self = Some lines -> lines <> [] ->
    map content (_all_words_buffer self) = List.concat groups ++ leftover ->
    Forall2 (fun line_text g =>
               PyStr.truthy (hd "" g) = true
               /\ PyStr.lower (PyStr.join " " g) = PyStr.lower line_text)
      lines groups ->
    exists c,
      fst (get_srt self) = [c]
      /\ content c
         = PyStr.join PyStr.LF (map (PyStr.join " ") groups ++ leftover).
Proof.
  intros self lines groups leftover Hc Ht Hl Hne Hwords Hmatch.
  destruct (_all_words_buffer self) as [|first rest] eqn:Hbuf.
  { exfalso. destruct Hmatch as [|l g ls gs [Hhd _] _]; [congruence|].
    destruct g; [discriminate Hhd | discriminate Hwords]. }
  exists (combined_cue (first :: rest) lines first).
  split; [apply (get_srt_first_grouping _ _ _ _ Hc Ht Hl Hne Hbuf)|].
  unfold combined_cue. cbn [content]. f_equal.
  rewrite all_words_content_of_leftover.
  rewrite (lines_loop_exact _ _ _ Hmatch 0 [] leftover Hwords).
  cbn [fst snd Nat.add]. rewrite app_nil_l. f_equal.
  rewrite <- skipn_map, Hwords, skipn_app, skipn_all, Nat.sub_diag.
  reflexivity.
Qed.

Lemma matching_lines_are_reconstructed_witness :
  exists c,
    fst (get_srt hello_world_foo) = [c]
    /\ content c
       = PyStr.join PyStr.LF
           (map (PyStr.join " ") [["Hello"; "world"]; ["foo"]] ++ []).
Proof.
  apply (matching_lines_are_reconstructed hello_world_foo
           ["Hello world"; "foo"] [["Hello"; "world"]; ["foo"]] []).
  - reflexivity.
  - reflexivity.
  - reflexivity.
  - discriminate.
  - reflexivity.
  - repeat constructor.
Defined.

(** ** The case of the reference lines *)

Lemma collect_loop_line_length (buffer : list Subtitle)
    (line_text line_text' line_text_lower : string) :
  String.length line_text = String.length line_text' ->
  forall fuel word_index line_words accumulated_text,
    collect_loop fuel buffer line_text line_text_lower
      word_index line_words accumulated_text
    = collect_loop fuel buffer line_text' line_text_lower
        word_index line_words accumulated_text.
Proof.
  intros Hlen. induction fuel as [|fuel IH]; intros i lw acc; simpl;
    [reflexivity|].
  destruct (nth_error buffer i) as [word|]; [|reflexivity].
  unfold containment_match. rewrite Hlen.
  destruct (exact_match _ _); [reflexivity|].
  destruct (_ && _); [reflexivity | apply IH].
Qed.

Lemma collect_line_case (buffer : list Subtitle)
    (line_text line_text' : string) (word_index : nat) :
  PyStr.lower line_text = PyStr.lower line_text' ->
  String.length line_text = String.length line_text' ->
  collect_line buffer line_text word_index
  = collect_line buffer line_text' word_index.
Proof.
  intros H Hlen. unfold collect_line. rewrite H.
  now apply collect_loop_line_length.
Qed.

(** X10. A reference line counts only through its lowered text and its
    length: two lists of reference lines that, line by line, are equal
    once lowered and have the same length give, for the same buffer, the
    same lines of content. *)
Theorem grouping_ignores_case_of_lines :
  forall (buffer : list Subtitle) (lines lines' : list string),
    Forall2 (fun line_text line_text' =>
               PyStr.lower line_text = PyStr.lower line_text'
               /\ String.length line_text = String.length line_text')
      lines lines' ->
    all_words_content_of buffer lines = all_words_content_of buffer lines'.
Proof.
  intros buffer lines lines' H.
  assert (Hloop : forall i awc,
             lines_loop buffer lines i awc = lines_loop buffer lines' i awc).
  { induction H as [|l l' ls ls' [Hl Hlen] _ IH]; intros i awc;
      [reflexivity|].
    cbn [lines_loop]. rewrite (collect_line_case buffer l l' i Hl Hlen).
    destruct (collect_line buffer l' i) as [[j lw] acc]. apply IH. }
  unfold all_words_content_of. now rewrite Hloop.
Qed.

Lemma grouping_ignores_case_of_lines_witness :
  all_words_content_of (_all_words_buffer hello_world_foo)
    ["HELLO World"; "Foo"]
  = all_words_content_of (_all_words_buffer hello_world_foo)
      ["hello world"; "foo"].
Proof.
  apply (grouping_ignores_case_of_lines
           (_all_words_buffer hello_world_foo)
           ["HELLO World"; "Foo"] ["hello world"; "foo"]).
  repeat constructor.
Defined.
